(** * coincap: the market page (src/app/page.tsx)

    A shallow embedding of the [Home] component's logic: the watchlist
    toggle, the search filter, the fetch/retry/failover routine
    [fetchCryptoData] and the polling effect that drives it.

    Conventions.
    - A JS string without unpaired surrogates is modelled as the [string]
      of the bytes of its UTF-8 form: one string is within another as code
      units exactly when it is so as bytes.  [toLowerCase] is the Unicode
      lower-case mapping on the code points so encoded.
    - JS numbers that count (retry indices, HTTP statuses) are [nat];
      durations and clock readings are [Z], in milliseconds.
    - [Set<string>] is a [gset string]: membership is all the page reads. *)

From Stdlib Require Import ZArith QArith Ascii String List Bool Lia.
From stdpp Require Import base decidable list strings gmap pretty.

Local Open Scope string_scope.
Local Open Scope list_scope.
Local Open Scope Z_scope.

#[local] Set Warnings "-clear-no-such-hyp".

(* ===================================================================== *)
(** * Part I. Definitions                                                 *)
(* ===================================================================== *)

(** ** Data model *)

(** A JSON number carried by an entry; the page only formats these. *)
Definition number : Type := Q.

(** [interface Cryptocurrency] (page.tsx:8-21). *)
Record Cryptocurrency : Type := mkCrypto {
  id : string;
  symbol : string;
  name : string;
  image : string;
  current_price : number;
  price_change_percentage_24h : number;
  market_cap : number;
  total_volume : number;
  market_cap_rank : number;
  high_24h : number;
  low_24h : number;
  circulating_supply : number
}.

(** ** Strings: the two built-ins the page uses *)

(** A string is kept as the bytes of its UTF-8 form.  To change its case
    it is read as code points; a byte that is not part of a well-formed
    sequence is kept as it is. *)
Inductive Item : Type :=
| Cp (n : N)
| Raw (b : ascii).

(** The payload of a continuation byte. *)
Definition continuation (c : ascii) : option N :=
  let n := N_of_ascii c in
  if ((128 <=? n) && (n <? 192))%N then Some (n - 128)%N else None.

Fixpoint decode_utf8 (s : string) : list Item :=
  match s with
  | EmptyString => []
  | String b s1 =>
      let n := N_of_ascii b in
      if (n <? 128)%N then Cp n :: decode_utf8 s1
      else
        match s1 with
        | String b1 s2 =>
            match continuation b1 with
            | Some c1 =>
                if ((194 <=? n) && (n <? 224))%N
                then Cp ((n - 192) * 64 + c1)%N :: decode_utf8 s2
                else
                  match s2 with
                  | String b2 s3 =>
                      match continuation b2 with
                      | Some c2 =>
                          let cp3 := ((n - 224) * 4096 + c1 * 64 + c2)%N in
                          if ((224 <=? n) && (n <? 240) && (2048 <=? cp3)
                              && negb ((55296 <=? cp3) && (cp3 <? 57344)))%N
                          then Cp cp3 :: decode_utf8 s3
                          else
                            match s3 with
                            | String b3 s4 =>
                                match continuation b3 with
                                | Some c3 =>
                                    let cp4 := ((n - 240) * 262144 + c1 * 4096
                                                + c2 * 64 + c3)%N in
                                    if ((240 <=? n) && (n <? 245) && (65536 <=? cp4)
                                        && (cp4 <? 1114112))%N
                                    then Cp cp4 :: decode_utf8 s4
                                    else Raw b :: decode_utf8 s1
                                | None => Raw b :: decode_utf8 s1
                                end
                            | EmptyString => Raw b :: decode_utf8 s1
                            end
                      | None => Raw b :: decode_utf8 s1
                      end
                  | EmptyString => Raw b :: decode_utf8 s1
                  end
            | None => Raw b :: decode_utf8 s1
            end
        | EmptyString => [Raw b]
        end
  end.

Definition encode_cp (n : N) : string :=
  if (n <? 128)%N then String (ascii_of_N n) ""
  else if (n <? 2048)%N then
    String (ascii_of_N (192 + n / 64))
      (String (ascii_of_N (128 + n mod 64)) "")
  else if (n <? 65536)%N then
    String (ascii_of_N (224 + n / 4096))
      (String (ascii_of_N (128 + (n / 64) mod 64))
         (String (ascii_of_N (128 + n mod 64)) ""))
  else
    String (ascii_of_N (240 + n / 262144))
      (String (ascii_of_N (128 + (n / 4096) mod 64))
         (String (ascii_of_N (128 + (n / 64) mod 64))
            (String (ascii_of_N (128 + n mod 64)) ""))).

Fixpoint encode_utf8 (items : list Item) : string :=
  match items with
  | [] => EmptyString
  | Cp n :: rest => String.append (encode_cp n) (encode_utf8 rest)
  | Raw b :: rest => String b (encode_utf8 rest)
  end.

(** The simple lower-case mappings of the Unicode Character Database
    (version 14.0; later versions add code points and change none of
    these): every code point from [lo] to [hi] in steps of [step] maps to
    itself plus [delta]; a code point in no range maps to itself. *)
Definition lowercase_ranges : list (N * N * N * Z) :=
  [
   (65, 90, 1, 32%Z); (192, 214, 1, 32%Z); (216, 222, 1, 32%Z);
   (256, 302, 2, 1%Z); (306, 310, 2, 1%Z); (313, 327, 2, 1%Z);
   (330, 374, 2, 1%Z); (376, 376, 1, (-121)%Z); (377, 381, 2, 1%Z);
   (385, 385, 1, 210%Z); (386, 388, 2, 1%Z); (390, 390, 1, 206%Z);
   (391, 391, 1, 1%Z); (393, 394, 1, 205%Z); (395, 395, 1, 1%Z);
   (398, 398, 1, 79%Z); (399, 399, 1, 202%Z); (400, 400, 1, 203%Z);
   (401, 401, 1, 1%Z); (403, 403, 1, 205%Z); (404, 404, 1, 207%Z);
   (406, 406, 1, 211%Z); (407, 407, 1, 209%Z); (408, 408, 1, 1%Z);
   (412, 412, 1, 211%Z); (413, 413, 1, 213%Z); (415, 415, 1, 214%Z);
   (416, 420, 2, 1%Z); (422, 422, 1, 218%Z); (423, 423, 1, 1%Z);
   (425, 425, 1, 218%Z); (428, 428, 1, 1%Z); (430, 430, 1, 218%Z);
   (431, 431, 1, 1%Z); (433, 434, 1, 217%Z); (435, 437, 2, 1%Z);
   (439, 439, 1, 219%Z); (440, 440, 1, 1%Z); (444, 444, 1, 1%Z);
   (452, 452, 1, 2%Z); (453, 453, 1, 1%Z); (455, 455, 1, 2%Z);
   (456, 456, 1, 1%Z); (458, 458, 1, 2%Z); (459, 475, 2, 1%Z);
   (478, 494, 2, 1%Z); (497, 497, 1, 2%Z); (498, 500, 2, 1%Z);
   (502, 502, 1, (-97)%Z); (503, 503, 1, (-56)%Z); (504, 542, 2, 1%Z);
   (544, 544, 1, (-130)%Z); (546, 562, 2, 1%Z); (570, 570, 1, 10795%Z);
   (571, 571, 1, 1%Z); (573, 573, 1, (-163)%Z); (574, 574, 1, 10792%Z);
   (577, 577, 1, 1%Z); (579, 579, 1, (-195)%Z); (580, 580, 1, 69%Z);
   (581, 581, 1, 71%Z); (582, 590, 2, 1%Z); (880, 882, 2, 1%Z);
   (886, 886, 1, 1%Z); (895, 895, 1, 116%Z); (902, 902, 1, 38%Z);
   (904, 906, 1, 37%Z); (908, 908, 1, 64%Z); (910, 911, 1, 63%Z);
   (913, 929, 1, 32%Z); (932, 939, 1, 32%Z); (975, 975, 1, 8%Z);
   (984, 1006, 2, 1%Z); (1012, 1012, 1, (-60)%Z); (1015, 1015, 1, 1%Z);
   (1017, 1017, 1, (-7)%Z); (1018, 1018, 1, 1%Z); (1021, 1023, 1, (-130)%Z);
   (1024, 1039, 1, 80%Z); (1040, 1071, 1, 32%Z); (1120, 1152, 2, 1%Z);
   (1162, 1214, 2, 1%Z); (1216, 1216, 1, 15%Z); (1217, 1229, 2, 1%Z);
   (1232, 1326, 2, 1%Z); (1329, 1366, 1, 48%Z); (4256, 4293, 1, 7264%Z);
   (4295, 4295, 1, 7264%Z); (4301, 4301, 1, 7264%Z); (5024, 5103, 1, 38864%Z);
   (5104, 5109, 1, 8%Z); (7312, 7354, 1, (-3008)%Z); (7357, 7359, 1, (-3008)%Z);
   (7680, 7828, 2, 1%Z); (7838, 7838, 1, (-7615)%Z); (7840, 7934, 2, 1%Z);
   (7944, 7951, 1, (-8)%Z); (7960, 7965, 1, (-8)%Z); (7976, 7983, 1, (-8)%Z);
   (7992, 7999, 1, (-8)%Z); (8008, 8013, 1, (-8)%Z); (8025, 8031, 2, (-8)%Z);
   (8040, 8047, 1, (-8)%Z); (8072, 8079, 1, (-8)%Z); (8088, 8095, 1, (-8)%Z);
   (8104, 8111, 1, (-8)%Z); (8120, 8121, 1, (-8)%Z); (8122, 8123, 1, (-74)%Z);
   (8124, 8124, 1, (-9)%Z); (8136, 8139, 1, (-86)%Z); (8140, 8140, 1, (-9)%Z);
   (8152, 8153, 1, (-8)%Z); (8154, 8155, 1, (-100)%Z); (8168, 8169, 1, (-8)%Z);
   (8170, 8171, 1, (-112)%Z); (8172, 8172, 1, (-7)%Z); (8184, 8185, 1, (-128)%Z);
   (8186, 8187, 1, (-126)%Z); (8188, 8188, 1, (-9)%Z); (8486, 8486, 1, (-7517)%Z);
   (8490, 8490, 1, (-8383)%Z); (8491, 8491, 1, (-8262)%Z); (8498, 8498, 1, 28%Z);
   (8544, 8559, 1, 16%Z); (8579, 8579, 1, 1%Z); (9398, 9423, 1, 26%Z);
   (11264, 11311, 1, 48%Z); (11360, 11360, 1, 1%Z); (11362, 11362, 1, (-10743)%Z);
   (11363, 11363, 1, (-3814)%Z); (11364, 11364, 1, (-10727)%Z); (11367, 11371, 2, 1%Z);
   (11373, 11373, 1, (-10780)%Z); (11374, 11374, 1, (-10749)%Z); (11375, 11375, 1, (-10783)%Z);
   (11376, 11376, 1, (-10782)%Z); (11378, 11378, 1, 1%Z); (11381, 11381, 1, 1%Z);
   (11390, 11391, 1, (-10815)%Z); (11392, 11490, 2, 1%Z); (11499, 11501, 2, 1%Z);
   (11506, 11506, 1, 1%Z); (42560, 42604, 2, 1%Z); (42624, 42650, 2, 1%Z);
   (42786, 42798, 2, 1%Z); (42802, 42862, 2, 1%Z); (42873, 42875, 2, 1%Z);
   (42877, 42877, 1, (-35332)%Z); (42878, 42886, 2, 1%Z); (42891, 42891, 1, 1%Z);
   (42893, 42893, 1, (-42280)%Z); (42896, 42898, 2, 1%Z); (42902, 42920, 2, 1%Z);
   (42922, 42922, 1, (-42308)%Z); (42923, 42923, 1, (-42319)%Z); (42924, 42924, 1, (-42315)%Z);
   (42925, 42925, 1, (-42305)%Z); (42926, 42926, 1, (-42308)%Z); (42928, 42928, 1, (-42258)%Z);
   (42929, 42929, 1, (-42282)%Z); (42930, 42930, 1, (-42261)%Z); (42931, 42931, 1, 928%Z);
   (42932, 42946, 2, 1%Z); (42948, 42948, 1, (-48)%Z); (42949, 42949, 1, (-42307)%Z);
   (42950, 42950, 1, (-35384)%Z); (42951, 42953, 2, 1%Z); (42960, 42960, 1, 1%Z);
   (42966, 42968, 2, 1%Z); (42997, 42997, 1, 1%Z); (65313, 65338, 1, 32%Z);
   (66560, 66599, 1, 40%Z); (66736, 66771, 1, 40%Z); (66928, 66938, 1, 39%Z);
   (66940, 66954, 1, 39%Z); (66956, 66962, 1, 39%Z); (66964, 66965, 1, 39%Z);
   (68736, 68786, 1, 64%Z); (71840, 71871, 1, 32%Z); (93760, 93791, 1, 32%Z);
   (125184, 125217, 1, 34%Z)
  ]%N.

(** The code points with the property Case_Ignorable. *)
Definition case_ignorable_ranges : list (N * N) :=
  [
   (39, 39); (46, 46); (58, 58); (94, 94); (96, 96);
   (168, 168); (173, 173); (175, 175); (180, 180); (183, 184);
   (688, 879); (884, 885); (890, 890); (900, 901); (903, 903);
   (1155, 1161); (1369, 1369); (1375, 1375); (1425, 1469); (1471, 1471);
   (1473, 1474); (1476, 1477); (1479, 1479); (1524, 1524); (1536, 1541);
   (1552, 1562); (1564, 1564); (1600, 1600); (1611, 1631); (1648, 1648);
   (1750, 1757); (1759, 1768); (1770, 1773); (1807, 1807); (1809, 1809);
   (1840, 1866); (1958, 1968); (2027, 2037); (2042, 2042); (2045, 2045);
   (2070, 2093); (2137, 2139); (2184, 2184); (2192, 2193); (2200, 2207);
   (2249, 2306); (2362, 2362); (2364, 2364); (2369, 2376); (2381, 2381);
   (2385, 2391); (2402, 2403); (2417, 2417); (2433, 2433); (2492, 2492);
   (2497, 2500); (2509, 2509); (2530, 2531); (2558, 2558); (2561, 2562);
   (2620, 2620); (2625, 2626); (2631, 2632); (2635, 2637); (2641, 2641);
   (2672, 2673); (2677, 2677); (2689, 2690); (2748, 2748); (2753, 2757);
   (2759, 2760); (2765, 2765); (2786, 2787); (2810, 2815); (2817, 2817);
   (2876, 2876); (2879, 2879); (2881, 2884); (2893, 2893); (2901, 2902);
   (2914, 2915); (2946, 2946); (3008, 3008); (3021, 3021); (3072, 3072);
   (3076, 3076); (3132, 3132); (3134, 3136); (3142, 3144); (3146, 3149);
   (3157, 3158); (3170, 3171); (3201, 3201); (3260, 3260); (3263, 3263);
   (3270, 3270); (3276, 3277); (3298, 3299); (3328, 3329); (3387, 3388);
   (3393, 3396); (3405, 3405); (3426, 3427); (3457, 3457); (3530, 3530);
   (3538, 3540); (3542, 3542); (3633, 3633); (3636, 3642); (3654, 3662);
   (3761, 3761); (3764, 3772); (3782, 3782); (3784, 3789); (3864, 3865);
   (3893, 3893); (3895, 3895); (3897, 3897); (3953, 3966); (3968, 3972);
   (3974, 3975); (3981, 3991); (3993, 4028); (4038, 4038); (4141, 4144);
   (4146, 4151); (4153, 4154); (4157, 4158); (4184, 4185); (4190, 4192);
   (4209, 4212); (4226, 4226); (4229, 4230); (4237, 4237); (4253, 4253);
   (4348, 4348); (4957, 4959); (5906, 5908); (5938, 5939); (5970, 5971);
   (6002, 6003); (6068, 6069); (6071, 6077); (6086, 6086); (6089, 6099);
   (6103, 6103); (6109, 6109); (6155, 6159); (6211, 6211); (6277, 6278);
   (6313, 6313); (6432, 6434); (6439, 6440); (6450, 6450); (6457, 6459);
   (6679, 6680); (6683, 6683); (6742, 6742); (6744, 6750); (6752, 6752);
   (6754, 6754); (6757, 6764); (6771, 6780); (6783, 6783); (6823, 6823);
   (6832, 6862); (6912, 6915); (6964, 6964); (6966, 6970); (6972, 6972);
   (6978, 6978); (7019, 7027); (7040, 7041); (7074, 7077); (7080, 7081);
   (7083, 7085); (7142, 7142); (7144, 7145); (7149, 7149); (7151, 7153);
   (7212, 7219); (7222, 7223); (7288, 7293); (7376, 7378); (7380, 7392);
   (7394, 7400); (7405, 7405); (7412, 7412); (7416, 7417); (7468, 7530);
   (7544, 7544); (7579, 7679); (8125, 8125); (8127, 8129); (8141, 8143);
   (8157, 8159); (8173, 8175); (8189, 8190); (8203, 8207); (8216, 8217);
   (8228, 8228); (8231, 8231); (8234, 8238); (8288, 8292); (8294, 8303);
   (8305, 8305); (8319, 8319); (8336, 8348); (8400, 8432); (11388, 11389);
   (11503, 11505); (11631, 11631); (11647, 11647); (11744, 11775); (11823, 11823);
   (12293, 12293); (12330, 12333); (12337, 12341); (12347, 12347); (12441, 12446);
   (12540, 12542); (40981, 40981); (42232, 42237); (42508, 42508); (42607, 42610);
   (42612, 42621); (42623, 42623); (42652, 42655); (42736, 42737); (42752, 42785);
   (42864, 42864); (42888, 42890); (42994, 42996); (43000, 43001); (43010, 43010);
   (43014, 43014); (43019, 43019); (43045, 43046); (43052, 43052); (43204, 43205);
   (43232, 43249); (43263, 43263); (43302, 43309); (43335, 43345); (43392, 43394);
   (43443, 43443); (43446, 43449); (43452, 43453); (43471, 43471); (43493, 43494);
   (43561, 43566); (43569, 43570); (43573, 43574); (43587, 43587); (43596, 43596);
   (43632, 43632); (43644, 43644); (43696, 43696); (43698, 43700); (43703, 43704);
   (43710, 43711); (43713, 43713); (43741, 43741); (43756, 43757); (43763, 43764);
   (43766, 43766); (43867, 43871); (43881, 43883); (44005, 44005); (44008, 44008);
   (44013, 44013); (64286, 64286); (64434, 64450); (65024, 65039); (65043, 65043);
   (65056, 65071); (65106, 65106); (65109, 65109); (65279, 65279); (65287, 65287);
   (65294, 65294); (65306, 65306); (65342, 65342); (65344, 65344); (65392, 65392);
   (65438, 65439); (65507, 65507); (65529, 65531); (66045, 66045); (66272, 66272);
   (66422, 66426); (67456, 67461); (67463, 67504); (67506, 67514); (68097, 68099);
   (68101, 68102); (68108, 68111); (68152, 68154); (68159, 68159); (68325, 68326);
   (68900, 68903); (69291, 69292); (69446, 69456); (69506, 69509); (69633, 69633);
   (69688, 69702); (69744, 69744); (69747, 69748); (69759, 69761); (69811, 69814);
   (69817, 69818); (69821, 69821); (69826, 69826); (69837, 69837); (69888, 69890);
   (69927, 69931); (69933, 69940); (70003, 70003); (70016, 70017); (70070, 70078);
   (70089, 70092); (70095, 70095); (70191, 70193); (70196, 70196); (70198, 70199);
   (70206, 70206); (70367, 70367); (70371, 70378); (70400, 70401); (70459, 70460);
   (70464, 70464); (70502, 70508); (70512, 70516); (70712, 70719); (70722, 70724);
   (70726, 70726); (70750, 70750); (70835, 70840); (70842, 70842); (70847, 70848);
   (70850, 70851); (71090, 71093); (71100, 71101); (71103, 71104); (71132, 71133);
   (71219, 71226); (71229, 71229); (71231, 71232); (71339, 71339); (71341, 71341);
   (71344, 71349); (71351, 71351); (71453, 71455); (71458, 71461); (71463, 71467);
   (71727, 71735); (71737, 71738); (71995, 71996); (71998, 71998); (72003, 72003);
   (72148, 72151); (72154, 72155); (72160, 72160); (72193, 72202); (72243, 72248);
   (72251, 72254); (72263, 72263); (72273, 72278); (72281, 72283); (72330, 72342);
   (72344, 72345); (72752, 72758); (72760, 72765); (72767, 72767); (72850, 72871);
   (72874, 72880); (72882, 72883); (72885, 72886); (73009, 73014); (73018, 73018);
   (73020, 73021); (73023, 73029); (73031, 73031); (73104, 73105); (73109, 73109);
   (73111, 73111); (73459, 73460); (78896, 78904); (92912, 92916); (92976, 92982);
   (92992, 92995); (94031, 94031); (94095, 94111); (94176, 94177); (94179, 94180);
   (110576, 110579); (110581, 110587); (110589, 110590); (113821, 113822); (113824, 113827);
   (118528, 118573); (118576, 118598); (119143, 119145); (119155, 119170); (119173, 119179);
   (119210, 119213); (119362, 119364); (121344, 121398); (121403, 121452); (121461, 121461);
   (121476, 121476); (121499, 121503); (121505, 121519); (122880, 122886); (122888, 122904);
   (122907, 122913); (122915, 122916); (122918, 122922); (123184, 123197); (123566, 123566);
   (123628, 123631); (125136, 125142); (125252, 125259); (127995, 127999); (917505, 917505);
   (917536, 917631); (917760, 917999)
  ]%N.

(** The code points with the property Cased that are not Case_Ignorable:
    the only ones of which the rule for sigma asks whether they are cased. *)
Definition cased_ranges : list (N * N) :=
  [
   (65, 90); (97, 122); (170, 170); (181, 181); (186, 186);
   (192, 214); (216, 246); (248, 442); (444, 447); (452, 659);
   (661, 687); (880, 883); (886, 887); (891, 893); (895, 895);
   (902, 902); (904, 906); (908, 908); (910, 929); (931, 1013);
   (1015, 1153); (1162, 1327); (1329, 1366); (1376, 1416); (4256, 4293);
   (4295, 4295); (4301, 4301); (4304, 4346); (4349, 4351); (5024, 5109);
   (5112, 5117); (7296, 7304); (7312, 7354); (7357, 7359); (7424, 7467);
   (7531, 7543); (7545, 7578); (7680, 7957); (7960, 7965); (7968, 8005);
   (8008, 8013); (8016, 8023); (8025, 8025); (8027, 8027); (8029, 8029);
   (8031, 8061); (8064, 8116); (8118, 8124); (8126, 8126); (8130, 8132);
   (8134, 8140); (8144, 8147); (8150, 8155); (8160, 8172); (8178, 8180);
   (8182, 8188); (8450, 8450); (8455, 8455); (8458, 8467); (8469, 8469);
   (8473, 8477); (8484, 8484); (8486, 8486); (8488, 8488); (8490, 8493);
   (8495, 8500); (8505, 8505); (8508, 8511); (8517, 8521); (8526, 8526);
   (8544, 8575); (8579, 8580); (9398, 9449); (11264, 11387); (11390, 11492);
   (11499, 11502); (11506, 11507); (11520, 11557); (11559, 11559); (11565, 11565);
   (42560, 42605); (42624, 42651); (42786, 42863); (42865, 42887); (42891, 42894);
   (42896, 42954); (42960, 42961); (42963, 42963); (42965, 42969); (42997, 42998);
   (43002, 43002); (43824, 43866); (43872, 43880); (43888, 43967); (64256, 64262);
   (64275, 64279); (65313, 65338); (65345, 65370); (66560, 66639); (66736, 66771);
   (66776, 66811); (66928, 66938); (66940, 66954); (66956, 66962); (66964, 66965);
   (66967, 66977); (66979, 66993); (66995, 67001); (67003, 67004); (68736, 68786);
   (68800, 68850); (71840, 71903); (93760, 93823); (119808, 119892); (119894, 119964);
   (119966, 119967); (119970, 119970); (119973, 119974); (119977, 119980); (119982, 119993);
   (119995, 119995); (119997, 120003); (120005, 120069); (120071, 120074); (120077, 120084);
   (120086, 120092); (120094, 120121); (120123, 120126); (120128, 120132); (120134, 120134);
   (120138, 120144); (120146, 120485); (120488, 120512); (120514, 120538); (120540, 120570);
   (120572, 120596); (120598, 120628); (120630, 120654); (120656, 120686); (120688, 120712);
   (120714, 120744); (120746, 120770); (120772, 120779); (122624, 122633); (122635, 122654);
   (125184, 125251); (127280, 127305); (127312, 127337); (127344, 127369)
  ]%N.

Definition within (cp : N) (r : N * N) : bool :=
  ((fst r <=? cp) && (cp <=? snd r))%N.

Definition lower_cp (cp : N) : N :=
  match
    List.find (fun r : N * N * N * Z =>
                 let '(lo, hi, step, _) := r in
                 ((lo <=? cp) && (cp <=? hi) && ((cp - lo) mod step =? 0))%N)
              lowercase_ranges
  with
  | Some (_, _, _, delta) => Z.to_N (Z.of_N cp + delta)
  | None => cp
  end.

Definition case_ignorable (it : Item) : bool :=
  match it with
  | Cp cp => existsb (within cp) case_ignorable_ranges
  | Raw _ => false
  end.

Definition cased (it : Item) : bool :=
  match it with
  | Cp cp => existsb (within cp) cased_ranges
  | Raw _ => false
  end.

Fixpoint skip_ignorable (items : list Item) : list Item :=
  match items with
  | it :: rest => if case_ignorable it then skip_ignorable rest else items
  | [] => []
  end.

(** Final_Sigma: a capital sigma that closes a word.  [before] lists what
    precedes it, nearest first; [after] what follows. *)
Definition final_sigma (before after : list Item) : bool :=
  match skip_ignorable before with
  | it :: _ =>
      cased it &&
      match skip_ignorable after with
      | it' :: _ => negb (cased it')
      | [] => true
      end
  | [] => false
  end.

Definition lower_item (before after : list Item) (it : Item) : list Item :=
  match it with
  | Raw b => [Raw b]
  | Cp cp =>
      if (cp =? 931)%N then [Cp (if final_sigma before after then 962 else 963)%N]
      else if (cp =? 304)%N then [Cp 105%N; Cp 775%N]
      else [Cp (lower_cp cp)]
  end.

Fixpoint lower_items (before items : list Item) : list Item :=
  match items with
  | [] => []
  | it :: rest => lower_item before rest it ++ lower_items (it :: before) rest
  end.

(** [String.prototype.toLowerCase]: the lower-case mapping of the Unicode
    default case conversion, which is that of each code point except for
    capital sigma (final or not by its context) and for capital dotted I
    (two code points). *)
Definition toLowerCase (s : string) : string :=
  encode_utf8 (lower_items [] (decode_utf8 s)).

(** Folding of the letters A to Z alone: what [toLowerCase] comes to on
    ASCII text. *)
Definition ascii_fold_char (c : ascii) : ascii :=
  let n := N_of_ascii c in
  if ((65 <=? n)%N && (n <=? 90)%N)%bool then ascii_of_N (n + 32) else c.

Fixpoint ascii_fold (s : string) : string :=
  match s with
  | EmptyString => EmptyString
  | String c s' => String (ascii_fold_char c) (ascii_fold s')
  end.

Fixpoint is_ascii (s : string) : bool :=
  match s with
  | EmptyString => true
  | String c s' => (N_of_ascii c <? 128)%N && is_ascii s'
  end.

(** Two characters that are the same or the two cases of one of the letters
    A to Z, and two strings that are so character by character. *)
Definition letter_eq_ci (a b : ascii) : bool :=
  let x := N_of_ascii a in
  let y := N_of_ascii b in
  ((x =? y) || ((65 <=? x) && (x <=? 90) && (y =? x + 32))
   || ((65 <=? y) && (y <=? 90) && (x =? y + 32)))%N.

Fixpoint string_eq_ci (u t : string) : bool :=
  match u, t with
  | EmptyString, EmptyString => true
  | String a u', String b t' => letter_eq_ci a b && string_eq_ci u' t'
  | _, _ => false
  end.

(** [s.startsWith(sub)] — the auxiliary of [includes]. *)
Fixpoint startsWith (s sub : string) {struct sub} : bool :=
  match sub, s with
  | EmptyString, _ => true
  | String _ _, EmptyString => false
  | String a sub', String b s' => (if ascii_dec a b then true else false) && startsWith s' sub'
  end.

(** [s.includes(sub)]: [sub] occurs somewhere in [s]. *)
Fixpoint includes (s sub : string) : bool :=
  startsWith s sub ||
  match s with
  | EmptyString => false
  | String _ s' => includes s' sub
  end.

(** ** Watchlist (page.tsx:34-57) *)

(** The component's [watchlist] state together with the copy written to
    [localStorage] under the key ['watchlist'].  The stored JSON array is
    read back through [new Set(JSON.parse(saved))], so only its elements
    are kept here. *)
Record WatchState : Type := mkWatch {
  watchlist : gset string;
  stored_watchlist : option (gset string)
}.

(** The updater passed to [setWatchlist]: copy, flip [id], save, return. *)
Definition toggle_set (id : string) (prev : gset string) : gset string :=
  let newSet := prev in
  if decide (id ∈ newSet) then newSet ∖ {[ id ]} else newSet ∪ {[ id ]}.

Definition toggleWatchlist (id : string) (st : WatchState) : WatchState :=
  let newSet := toggle_set id (watchlist st) in
  {| watchlist := newSet; stored_watchlist := Some newSet |}.

(** ** Search filter (page.tsx:215-218) *)

Definition matches (searchTerm : string) (crypto : Cryptocurrency) : bool :=
  includes (toLowerCase (name crypto)) (toLowerCase searchTerm) ||
  includes (toLowerCase (symbol crypto)) (toLowerCase searchTerm).

Definition filteredCryptos (cryptocurrencies : list Cryptocurrency)
    (searchTerm : string) : list Cryptocurrency :=
  List.filter (matches searchTerm) cryptocurrencies.

(** What the filter computes, stated without [includes]: the lower-cased
    [s] has the lower-cased [t] somewhere in it.  Each string is lower-cased
    as a whole, on its own. *)
Definition lowered_contains (s t : string) : Prop :=
  ∃ pre post, toLowerCase s = pre +:+ toLowerCase t +:+ post.

Definition matches_lowered (searchTerm : string) (crypto : Cryptocurrency) : Prop :=
  lowered_contains (name crypto) searchTerm
  ∨ lowered_contains (symbol crypto) searchTerm.

(** Containment up to letter case: some stretch [u] of [s] is the same as
    [t] up to case, for a reading [same] of "the same up to case". *)
Definition contains_upto (same : string → string → Prop) (s t : string) : Prop :=
  ∃ pre u post, s = pre +:+ u +:+ post ∧ same u t.

Definition matches_upto (same : string → string → Prop)
    (searchTerm : string) (crypto : Cryptocurrency) : Prop :=
  contains_upto same (name crypto) searchTerm
  ∨ contains_upto same (symbol crypto) searchTerm.

(** One such reading: the two strings have the same code points once each
    code point is replaced by its lower-case mapping. *)
Definition lower_each (it : Item) : Item :=
  match it with
  | Cp cp => Cp (lower_cp cp)
  | Raw b => Raw b
  end.

Definition same_letters (u t : string) : Prop :=
  map lower_each (decode_utf8 u) = map lower_each (decode_utf8 t).

(** On ASCII text: the same characters up to the case of the letters A to
    Z. *)
Definition same_ascii_letters (u t : string) : Prop :=
  string_eq_ci u t = true.

(** [selects P l l']: [l'] is [l] with exactly the entries satisfying [P]
    kept, in their original order and multiplicity. *)
Inductive selects {A : Type} (P : A → Prop) : list A → list A → Prop :=
| selects_nil : selects P [] []
| selects_keep x l l' : P x → selects P l l' → selects P (x :: l) (x :: l')
| selects_drop x l l' : ¬ P x → selects P l l' → selects P (x :: l) l'.

(** ** Configuration (page.tsx:23-26) *)

Definition INITIAL_RETRY_DELAY : Z := 2000.
Definition MAX_RETRIES : nat := 5.
Definition API_BASE_URL : string := "https://api.coingecko.com/api/v3".
Definition BACKUP_API_URL : string := "https://api.coingecko.com/api/v3".

(** ** Component state written by the fetch routine (page.tsx:29-42) *)

Record State : Type := mkState {
  cryptocurrencies : list Cryptocurrency;
  loading : bool;
  error : option string;
  retryCount : nat;
  lastUpdateTime : option Z;
  isUsingBackupAPI : bool
}.

Definition initialState : State :=
  {| cryptocurrencies := []; loading := true; error := None;
     retryCount := 0; lastUpdateTime := None; isUsingBackupAPI := false |}.

Definition setCryptocurrencies (v : list Cryptocurrency) (st : State) : State :=
  mkState v (loading st) (error st) (retryCount st) (lastUpdateTime st) (isUsingBackupAPI st).
Definition setLoading (v : bool) (st : State) : State :=
  mkState (cryptocurrencies st) v (error st) (retryCount st) (lastUpdateTime st) (isUsingBackupAPI st).
Definition setError (v : option string) (st : State) : State :=
  mkState (cryptocurrencies st) (loading st) v (retryCount st) (lastUpdateTime st) (isUsingBackupAPI st).
Definition setRetryCount (v : nat) (st : State) : State :=
  mkState (cryptocurrencies st) (loading st) (error st) v (lastUpdateTime st) (isUsingBackupAPI st).
Definition setLastUpdateTime (v : option Z) (st : State) : State :=
  mkState (cryptocurrencies st) (loading st) (error st) (retryCount st) v (isUsingBackupAPI st).
Definition setIsUsingBackupAPI (v : bool) (st : State) : State :=
  mkState (cryptocurrencies st) (loading st) (error st) (retryCount st) (lastUpdateTime st) v.

(** ** The network, as the routine sees it *)

(** A thrown value: whether it is an [Error], and its [name] and [message]. *)
Record Exn : Type := mkExn {
  is_Error : bool;
  exn_name : string;
  exn_message : string
}.

(** [new Error(msg)]. *)
Definition Error (msg : string) : Exn :=
  {| is_Error := true; exn_name := "Error"; exn_message := msg |}.

(** What [fetch] rejects with once [controller.abort()] has run. *)
Definition AbortError : Exn :=
  {| is_Error := true; exn_name := "AbortError";
     exn_message := "The operation was aborted." |}.

(** The value [response.json()] resolves to, as far as the routine looks:
    [Array.isArray(data)] and, for an array, its entries. *)
Inductive JsonValue : Type :=
| JNotArray
| JArray (data : list Cryptocurrency).

(** A received response.  [error_field] is the truthy [error] member of the
    body read as JSON ([errorJson?.error]), when the body has one; [json] is
    how [response.json()] settles. *)
Record Response : Type := mkResponse {
  status : nat;
  error_field : option string;
  json : Exn + JsonValue
}.

(** [response.ok]: a status in 200..299. *)
Definition ok (response : Response) : bool :=
  ((200 <=? status response)%nat && (status response <=? 299)%nat)%bool.

(** How the underlying [fetch] promise would settle if never aborted. *)
Inductive Reply : Type :=
| Resolves (response : Response)
| Rejects (e : Exn).

(** One attempt's worth of network behaviour: the reply, the time until
    [fetch] would settle, and the time it then takes to read the body. *)
Record Attempt : Type := mkAttempt {
  reply : Reply;
  latency : Z;
  body_latency : Z
}.

(** What a cycle does that the outside can observe. *)
Inductive Event : Type :=
| EvSleep (ms : Z)
| EvFetch (url : string) (retry : nat) (useBackup : bool).

(** ** [fetchWithTimeout] (page.tsx:59-74) *)

(** The abort timer fires after [timeout] ms unless [fetch] settled first;
    the result is the settled reply and the time it took. *)
Definition fetchWithTimeout (a : Attempt) (timeout : Z) : Reply * Z :=
  if latency a <? timeout then (reply a, latency a)
  else (Rejects AbortError, timeout).

(** ** [fetchCryptoData] (page.tsx:76-192) *)

(** How a cycle ends. *)
Inductive Settlement : Type :=
| Succeeded (data : list Cryptocurrency) (useBackup : bool)
| Failed (message : string).

(** What one invocation does next. *)
Inductive Next : Type :=
| Again (retry : nat) (useBackup : bool)
| Stop (s : Settlement).

Record Step : Type := mkStep {
  s_events : list Event;
  s_clock : Z;
  s_state : State;
  s_next : Next
}.

(** [const delay = retry > 0 ? INITIAL_RETRY_DELAY * Math.pow(2, retry - 1) : 0]. *)
Definition delay (retry : nat) : Z :=
  if (0 <? retry)%nat then INITIAL_RETRY_DELAY * 2 ^ (Z.of_nat retry - 1) else 0.

Definition retrying_message (retry : nat) : string :=
  "Retrying in " +:+ pretty (delay retry / 1000) +:+ " seconds... (Attempt "
    +:+ pretty retry +:+ "/" +:+ pretty MAX_RETRIES +:+ ")".

(** Lines 78-82: announce and sit out the backoff of a retry. *)
Definition backoff (retry : nat) (now : Z) (st : State) : list Event * Z * State :=
  if (0 <? retry)%nat
  then ([EvSleep (delay retry)], now + delay retry,
        setError (Some (retrying_message retry)) st)
  else ([], now, st).

(** Lines 84-96: the request issued by this invocation. *)
Definition request_url (useBackup : bool) : string :=
  let baseUrl := if useBackup then BACKUP_API_URL else API_BASE_URL in
  baseUrl +:+ "/coins/markets?" +:+
  "vs_currency=usd&order=market_cap_desc&per_page=100&page=1&sparkline=false&locale=en&precision=2".

Definition request (retry : nat) (useBackup : bool) : Event :=
  EvFetch (request_url useBackup) retry useBackup.

(** Lines 109-119: the message of a response that is not [ok]. *)
Definition http_error_message (response : Response) : string :=
  match error_field response with
  | Some e => e
  | None => "HTTP error! status: " +:+ pretty (status response)
  end.

(** Lines 108-161: the rest of the [try] block once a response is in.
    [inr e] is [throw e]. *)
Definition try_response (retry : nat) (useBackup : bool) (response : Response)
    (now : Z) (st : State) : Step + Exn :=
  if negb (ok response) then
    let errorMessage := http_error_message response in
    if (status response =? 429)%nat then
      if (retry <? MAX_RETRIES)%nat then
        inl {| s_events := [EvSleep 5000]; s_clock := now + 5000;
               s_state := setRetryCount (retry + 1) st;
               s_next := Again (retry + 1) useBackup |}
      else inr (Error "Rate limit exceeded. Please try again in a few minutes.")
    else if (status response =? 403)%nat then
      if negb useBackup then
        inl {| s_events := []; s_clock := now;
               s_state := setIsUsingBackupAPI true st;
               s_next := Again 0 true |}
      else inr (Error "Access denied. Please check your API permissions.")
    else if (status response =? 404)%nat then
      inr (Error "The requested data is not available.")
    else inr (Error errorMessage)
  else
    match json response with
    | inl e => inr e
    | inr JNotArray => inr (Error "Invalid data format received from API")
    | inr (JArray []) => inr (Error "No cryptocurrency data available")
    | inr (JArray data) =>
        inl {| s_events := []; s_clock := now;
               s_state :=
                 setIsUsingBackupAPI useBackup
                   (setLastUpdateTime (Some now)
                      (setRetryCount 0
                         (setLoading false
                            (setError None (setCryptocurrencies data st)))));
               s_next := Stop (Succeeded data useBackup) |}
    end.

(** Lines 180-185. *)
Definition noRetryErrors : list string :=
  ["Invalid data"; "Rate limit exceeded"; "Access denied"; "API permissions"].

(** [noRetryErrors.some(e => errorMessage.includes(e))]. *)
Definition no_retry (errorMessage : string) : bool :=
  existsb (fun e => includes errorMessage e) noRetryErrors.

(** Lines 162-191: the [catch] block. *)
Definition catch_block (retry : nat) (useBackup : bool) (e : Exn)
    (now : Z) (st : State) : Step :=
  let aborted := (is_Error e && String.eqb (exn_name e) "AbortError")%bool in
  if (aborted && negb useBackup && (retry =? 0)%nat)%bool then
    {| s_events := []; s_clock := now; s_state := st; s_next := Again 0 true |}
  else
    let errorMessage :=
      if is_Error e then
        if String.eqb (exn_name e) "AbortError" then "Request timed out. Retrying..."
        else exn_message e
      else "Failed to fetch cryptocurrency data" in
    let st := setLoading false (setError (Some errorMessage) st) in
    if ((retry <? MAX_RETRIES)%nat && negb (no_retry errorMessage))%bool then
      {| s_events := []; s_clock := now; s_state := setRetryCount (retry + 1) st;
         s_next := Again (retry + 1) useBackup |}
    else
      {| s_events := []; s_clock := now; s_state := st;
         s_next := Stop (Failed errorMessage) |}.

(** Lines 95-191: one invocation from its request on, given how the
    network behaves for it. *)
Definition attempt (retry : nat) (useBackup : bool) (a : Attempt)
    (now : Z) (st : State) : Step :=
  let '(settled, elapsed) := fetchWithTimeout a 20000 in
  match settled with
  | Rejects e => catch_block retry useBackup e (now + elapsed) st
  | Resolves response =>
      let now := now + elapsed + body_latency a in
      match try_response retry useBackup response now st with
      | inl step => step
      | inr e => catch_block retry useBackup e now st
      end
  end.

(** A cycle either settles or is still waiting on the network when the
    script of network behaviour runs out. *)
Inductive Outcome : Type :=
| Settled (s : Settlement)
| AwaitingResponse.

Record Run : Type := mkRun {
  trace : list Event;
  clock : Z;
  state : State;
  outcome : Outcome
}.

(** [fetchCryptoData(retry, useBackup)] started at time [now] in state [st];
    each invocation consumes one entry of [script]. *)
Fixpoint fetchCryptoData (script : list Attempt) (retry : nat) (useBackup : bool)
    (now : Z) (st : State) : Run :=
  let '(waited, now, st) := backoff retry now st in
  match script with
  | [] =>
      {| trace := waited ++ [request retry useBackup];
         clock := now; state := st; outcome := AwaitingResponse |}
  | a :: rest =>
      let step := attempt retry useBackup a now st in
      let events := waited ++ request retry useBackup :: s_events step in
      match s_next step with
      | Stop s =>
          {| trace := events; clock := s_clock step; state := s_state step;
             outcome := Settled s |}
      | Again retry' useBackup' =>
          let r := fetchCryptoData rest retry' useBackup' (s_clock step) (s_state step) in
          {| trace := events ++ trace r; clock := clock r; state := state r;
             outcome := outcome r |}
      end
  end.

(** ** Reading a trace *)

(** The [(retry, useBackup)] of each request, in order. *)
Fixpoint requests (tr : list Event) : list (nat * bool) :=
  match tr with
  | [] => []
  | EvFetch _ retry useBackup :: tr' => (retry, useBackup) :: requests tr'
  | EvSleep _ :: tr' => requests tr'
  end.

(** The time slept ahead of each request since the request before it. *)
Fixpoint waits_from (slept : Z) (tr : list Event) : list Z :=
  match tr with
  | [] => []
  | EvSleep ms :: tr' => waits_from (slept + ms) tr'
  | EvFetch _ _ _ :: tr' => slept :: waits_from 0 tr'
  end.

Definition waits (tr : list Event) : list Z := waits_from 0 tr.

(** ** Responses by kind *)

Definition transient (response : Response) : bool :=
  (negb (ok response) && negb (status response =? 429)%nat
   && negb (status response =? 403)%nat && negb (status response =? 404)%nat)%bool.

(** A reply that arrives before the abort timer fires. *)
Definition answers (a : Attempt) (response : Response) : Prop :=
  reply a = Resolves response ∧ latency a < 20000.

(** ** The polling effect (page.tsx:194-213) *)

(** The values of the dependency array [[error, isUsingBackupAPI]] that one
    run of the effect closes over. *)
Record Deps : Type := mkDeps {
  dep_error : option string;
  dep_isUsingBackupAPI : bool
}.

#[local] Instance Deps_eq_dec : EqDecision Deps.
Proof. solve_decision. Defined.

Definition deps_of (st : State) : Deps :=
  {| dep_error := error st; dep_isUsingBackupAPI := isUsingBackupAPI st |}.

(** React runs the effect again after a render in which a dependency
    differs from the value the running effect holds. *)
Definition rerun (d : Deps) (st : State) : option Deps :=
  if decide (deps_of st = d) then None else Some (deps_of st).

Definition POLL_INTERVAL : Z := 60000.

(** [await fetchCryptoData()]: both parameters take their defaults. *)
Definition first_call : nat * bool := (0%nat, false).

(** The timer callback, [fetchCryptoData(0, isUsingBackupAPI)]. *)
Definition interval_call (d : Deps) : nat * bool := (0%nat, dep_isUsingBackupAPI d).

(** [!error]: null and the empty string are falsy. *)
Definition no_error (d : Deps) : bool :=
  match dep_error d with
  | None => true
  | Some msg => String.eqb msg ""
  end.

(** [setInterval(cb, 60000)] called at [armed]: when it fires for the
    [k]-th time ([k >= 1]), for as long as it is not cleared. *)
Definition fires_at (armed : Z) (k : nat) : Z := armed + POLL_INTERVAL * Z.of_nat k.

(** One run of the effect, begun at [begun_at].  [scripts k] is the network
    behaviour met by the [k]-th cycle it starts (the awaited one is cycle 0)
    and [seen k] the component state that cycle finds. *)
Record Effect : Type := mkEffect {
  deps : Deps;
  begun_at : Z;
  scripts : nat → list Attempt;
  seen : nat → State
}.

Definition first_cycle (e : Effect) : Run :=
  fetchCryptoData (scripts e 0%nat) (fst first_call) (snd first_call)
    (begun_at e) (seen e 0%nat).

(** [initFetch]: the timer is set when the awaited cycle is over, provided
    the captured [error] is falsy. *)
Definition armed_at (e : Effect) : option Z :=
  match outcome (first_cycle e) with
  | Settled _ => if no_error (deps e) then Some (clock (first_cycle e)) else None
  | AwaitingResponse => None
  end.

Definition cycle_call (e : Effect) (k : nat) : nat * bool :=
  match k with
  | O => first_call
  | S _ => interval_call (deps e)
  end.

Definition cycle_start (e : Effect) (k : nat) : option Z :=
  match k with
  | O => Some (begun_at e)
  | S _ => match armed_at e with
           | Some armed => Some (fires_at armed k)
           | None => None
           end
  end.

Definition cycle (e : Effect) (k : nat) : option Run :=
  match cycle_start e k with
  | Some t =>
      Some (fetchCryptoData (scripts e k) (fst (cycle_call e k))
              (snd (cycle_call e k)) t (seen e k))
  | None => None
  end.

(** The endpoint a cycle ended on: that of its last request. *)
Definition ended_on (r : Run) : option bool := snd <$> last (requests (trace r)).

(** The endpoint a cycle started on: that of its first request. *)
Definition started_on (r : Run) : option bool := snd <$> head (requests (trace r)).

(** Two readings of a completion-gated cadence, for one run of the effect:
    a cycle is over by the time the next one starts, and the next one starts
    one interval after it was over. *)
Definition never_overlaps (e : Effect) : Prop :=
  ∀ k r t, cycle e k = Some r → cycle_start e (S k) = Some t →
    (∃ s, outcome r = Settled s) ∧ clock r ≤ t.

Definition timed_from_completion (e : Effect) : Prop :=
  ∀ k r t, cycle e k = Some r → cycle_start e (S k) = Some t →
    t = clock r + POLL_INTERVAL.

(** ** The cycle's rules as a reader might state them *)

(** A 404 ends the cycle at once. *)
Definition NotFound_is_terminal : Prop :=
  ∀ retry useBackup a response now st,
    answers a response → status response = 404%nat →
    ∃ msg, s_next (attempt retry useBackup a now st) = Stop (Failed msg).

(** C10 as stated: the rows shown are exactly the entries whose name or
    symbol contains the search term up to letter case, in their order. *)
Definition shows_what_contains_the_term (same : string → string → Prop) : Prop :=
  ∀ (cryptocurrencies : list Cryptocurrency) (searchTerm : string),
    selects (matches_upto same searchTerm) cryptocurrencies
            (filteredCryptos cryptocurrencies searchTerm).

(** A 2xx reply whose body is the empty array ends the cycle at once. *)
Definition empty_array_is_terminal : Prop :=
  ∀ retry useBackup a response now st,
    answers a response → ok response = true → json response = inr (JArray []) →
    ∃ msg, s_next (attempt retry useBackup a now st) = Stop (Failed msg).

(** Every transient reply met below the retry limit is retried. *)
Definition transient_is_retried : Prop :=
  ∀ retry useBackup a response now st,
    answers a response → transient response = true → (retry < MAX_RETRIES)%nat →
    s_next (attempt retry useBackup a now st) = Again (retry + 1) useBackup.

(** The only wait between a rate-limited request and its retry is one
    sleep of five seconds. *)
Definition rate_limit_waits_5s_only : Prop :=
  ∀ retry useBackup a rest response now st,
    answers a response → status response = 429%nat → (retry < MAX_RETRIES)%nat →
    ∃ tail,
      trace (fetchCryptoData (a :: rest) retry useBackup now st) =
        fst (fst (backoff retry now st)) ++
        request retry useBackup :: EvSleep 5000 ::
        request (retry + 1) useBackup :: tail.

(** Across the cycles of a run of the effect, each starts on the endpoint
    the one before it ended on. *)
Definition starts_where_previous_ended (e : Effect) : Prop :=
  ∀ k r r' b, cycle e k = Some r → cycle e (S k) = Some r' →
    ended_on r = Some b → started_on r' = Some b.

(** ** Sample network behaviour, for the worked examples *)

Definition bitcoin : Cryptocurrency :=
  {| id := "bitcoin"; symbol := "btc"; name := "Bitcoin"; image := "";
     current_price := 67000; price_change_percentage_24h := 1;
     market_cap := 1300000000000; total_volume := 30000000000;
     market_cap_rank := 1; high_24h := 68000; low_24h := 66000;
     circulating_supply := 19700000 |}%Q.

Definition ethereum : Cryptocurrency :=
  {| id := "ethereum"; symbol := "eth"; name := "Ethereum"; image := "";
     current_price := 3500; price_change_percentage_24h := -2;
     market_cap := 420000000000; total_volume := 15000000000;
     market_cap_rank := 2; high_24h := 3600; low_24h := 3400;
     circulating_supply := 120000000 |}%Q.

(** Two entries with names outside ASCII. *)
Definition ecu : Cryptocurrency :=
  {| id := "ecu"; symbol := "ecu"; name := "ÉCU Coin"; image := "";
     current_price := 1; price_change_percentage_24h := 0;
     market_cap := 1000000; total_volume := 1000;
     market_cap_rank := 900; high_24h := 1; low_24h := 1;
     circulating_supply := 1000000 |}%Q.

Definition alpha_sigma_alpha : Cryptocurrency :=
  {| id := "asa"; symbol := "asa"; name := "ΑΣΑ"; image := "";
     current_price := 1; price_change_percentage_24h := 0;
     market_cap := 1000000; total_volume := 1000;
     market_cap_rank := 901; high_24h := 1; low_24h := 1;
     circulating_supply := 1000000 |}%Q.

(** A response with the given status and no JSON [error] member, in after
    100 ms, body read at once. *)
Definition http (code : nat) : Attempt :=
  {| reply := Resolves {| status := code; error_field := None; json := inr JNotArray |};
     latency := 100; body_latency := 0 |}.

(** The same, with a JSON body [{"error": msg}]. *)
Definition http_with_error (code : nat) (msg : string) : Attempt :=
  {| reply := Resolves {| status := code; error_field := Some msg; json := inr JNotArray |};
     latency := 100; body_latency := 0 |}.

(** HTTP 200 with the array [data], headers after 100 ms, body read in
    [body_ms]. *)
Definition http_ok (data : list Cryptocurrency) (body_ms : Z) : Attempt :=
  {| reply := Resolves {| status := 200; error_field := None; json := inr (JArray data) |};
     latency := 100; body_latency := body_ms |}.

(** The dependencies of the effect when the page has just mounted. *)
Definition mounted : Deps := {| dep_error := None; dep_isUsingBackupAPI := false |}.

(** A run of the effect from mount in which every cycle receives HTTP 200
    with one entry at its first request, cycle [k] taking [body_ms k] to
    read the body.  (What state a cycle finds has no bearing on its
    course, so [seen] is left at the initial state.) *)
Definition steady (body_ms : nat → Z) : Effect :=
  {| deps := mounted; begun_at := 0;
     scripts := λ k, [http_ok [bitcoin] (body_ms k)];
     seen := λ _, initialState |}.

(** A run of the effect from mount whose awaited cycle is refused on
    primary (HTTP 403) and served by backup. *)
Definition failover : Effect :=
  {| deps := mounted; begun_at := 0;
     scripts := λ k, match k with
                     | O => [http 403; http_ok [bitcoin] 50]
                     | S _ => [http_ok [bitcoin] 50]
                     end;
     seen := λ _, initialState |}.

(** Invocations still possible from [(retry, useBackup)]: the measure by
    which a cycle is seen to settle. *)
Definition invocations_left (retry : nat) (useBackup : bool) : nat :=
  (MAX_RETRIES + 1 - retry) + (if useBackup then 0 else MAX_RETRIES + 1).

(** Case analysis over the branches of one invocation. *)
Ltac branches :=
  unfold attempt, fetchWithTimeout, try_response, catch_block;
  repeat case_match; simplify_eq/=.

(** ** Measures of a cycle *)

(** The time the routine takes on its current endpoint from the call with
    [retry] when it goes on for [n] further retries, every request and body
    read taking [B] in all and every retry being preceded by a [pause] on
    top of its backoff. *)
Fixpoint budget_from (B pause : Z) (n : nat) (retry : nat) : Z :=
  delay retry + B +
  match n with
  | O => 0
  | S n' => pause + budget_from B pause n' (S retry)
  end.

(** The longest the routine can still run on its current endpoint: every
    request cut off at 20 s, every body read taking [B], every retry after
    the five seconds of a 429. *)
Definition endpoint_budget (B : Z) (retry : nat) : Z :=
  budget_from (20000 + B) 5000 (MAX_RETRIES - retry) retry.

Definition cycle_budget (B : Z) (retry : nat) (useBackup : bool) : Z :=
  endpoint_budget B retry + (if useBackup then 0 else endpoint_budget B 0).

(** How many of the requests went to the given endpoint. *)
Definition count_on (endpoint : bool) (reqs : list (nat * bool)) : nat :=
  length (List.filter (λ q, Bool.eqb (snd q) endpoint) reqs).

(** The URLs requested, in order. *)
Fixpoint urls (tr : list Event) : list string :=
  match tr with
  | [] => []
  | EvFetch url _ _ :: tr' => url :: urls tr'
  | EvSleep _ :: tr' => urls tr'
  end.

(** A request that gets no reply within the abort timer's 20 s. *)
Definition unanswered (a : Attempt) : Prop := 20000 ≤ latency a.

(** ** What the page shows (page.tsx:242-373) *)

(** One line of the table: the entry, whether its star is lit
    ([watchlist.has(crypto.id)]) and whether its 24 h change is shown as a
    rise ([price_change_percentage_24h >= 0]).  How the cells are written
    out ([formatNumber], [formatMarketCap], [toFixed]) is not modelled. *)
Record Row : Type := mkRow {
  row_of : Cryptocurrency;
  star_active : bool;
  rising : bool
}.

(** The three things the lower part of the page can be. *)
Inductive Body : Type :=
| Spinner (retry_line : option nat)
| Table (rows : list Row)
| NothingFound.

(** The page: the "Last updated" line (time, and whether "(using backup
    API)" is appended), the red alert, and the body. *)
Record View : Type := mkView {
  last_updated : option (Z * bool);
  alert : option string;
  body : Body
}.

Definition row (watchlist : gset string) (crypto : Cryptocurrency) : Row :=
  {| row_of := crypto;
     star_active := bool_decide (id crypto ∈ watchlist);
     rising := Qle_bool 0 (price_change_percentage_24h crypto) |}.

Definition render (st : State) (searchTerm : string) (watchlist : gset string) : View :=
  {| last_updated :=
       match lastUpdateTime st with
       | Some t => Some (t, isUsingBackupAPI st)
       | None => None
       end;
     alert :=
       match error st with
       | Some (String c msg) => Some (String c msg)
       | _ => None
       end;
     body :=
       if loading st then
         Spinner (if (0 <? retryCount st)%nat then Some (retryCount st) else None)
       else if (0 <? length (cryptocurrencies st))%nat then
         Table (map (row watchlist) (filteredCryptos (cryptocurrencies st) searchTerm))
       else NothingFound |}.

(** ** Tearing the effect down (page.tsx:208-212) *)

(** A run of the effect and the time at which React calls the cleanup it
    returned, if it has. *)
Record Mounted : Type := mkMounted {
  run_of : Effect;
  cleanup_at : option Z
}.

(** [if (intervalId) clearInterval(intervalId)]: the cleanup stops the
    timer only if [intervalId] has been assigned by the time it runs, that
    is, if the timer was set before.  (When both fall on the same
    millisecond the timer is set first: [setInterval] follows the settlement
    in the same turn, the cleanup comes with the render after it.) *)
Definition timer_cleared_at (m : Mounted) : option Z :=
  match cleanup_at m, armed_at (run_of m) with
  | Some cleaned, Some armed => if armed <=? cleaned then Some cleaned else None
  | _, _ => None
  end.

(** Whether the timer fires for the [k]-th time ([k >= 1]) and starts a
    cycle. *)
Definition tick_fires (m : Mounted) (k : nat) : bool :=
  match armed_at (run_of m) with
  | None => false
  | Some armed =>
      match timer_cleared_at m with
      | None => true
      | Some cleaned => fires_at armed k <? cleaned
      end
  end.

(** ** The watchlist with its order, and in storage (page.tsx:34-57) *)

(** A [Set<string>] as the list of its members in insertion order, which
    is the order in which [[...set]] lists them.  (The earlier [gset] model
    keeps membership only.) *)

Definition set_has (x : string) (s : list string) : bool := bool_decide (x ∈ s).

Definition set_add (x : string) (s : list string) : list string :=
  if set_has x s then s else s ++ [x].

Definition set_delete (x : string) (s : list string) : list string :=
  List.filter (λ y, negb (String.eqb y x)) s.

(** [new Set(iterable)]: the members are added one by one. *)
Definition new_Set (items : list string) : list string :=
  fold_left (λ s x, set_add x s) items [].

(** *** [JSON.stringify] on an array of strings *)

Definition dquote : ascii := ascii_of_N 34.
Definition backslash : ascii := ascii_of_N 92.

Definition hex_digit (n : N) : ascii :=
  if (n <? 10)%N then ascii_of_N (48 + n) else ascii_of_N (87 + n).

(** QuoteJSONString, one code unit at a time: the seven short escapes, a
    [\u00xx] escape for the other control characters, the character itself
    otherwise. *)
Definition quote_char (c : ascii) : string :=
  let n := N_of_ascii c in
  if (n =? 8)%N then "\b"
  else if (n =? 9)%N then "\t"
  else if (n =? 10)%N then "\n"
  else if (n =? 12)%N then "\f"
  else if (n =? 13)%N then "\r"
  else if (n =? 34)%N then String backslash (String dquote "")
  else if (n =? 92)%N then String backslash (String backslash "")
  else if (n <? 32)%N then
    "\u00" +:+ String (hex_digit (n / 16)) (String (hex_digit (n mod 16)) "")
  else String c "".

Fixpoint quote_body (s : string) : string :=
  match s with
  | EmptyString => EmptyString
  | String c s' => quote_char c +:+ quote_body s'
  end.

Definition JSON_stringify_string (s : string) : string :=
  String dquote (quote_body s +:+ String dquote "").

Fixpoint join_comma (parts : list string) : string :=
  match parts with
  | [] => ""
  | [part] => part
  | part :: rest => part +:+ "," +:+ join_comma rest
  end.

(** [JSON.stringify(items)] for an array of strings. *)
Definition JSON_stringify (items : list string) : string :=
  "[" +:+ join_comma (map JSON_stringify_string items) +:+ "]".

(** *** [JSON.parse] on the text of an array of strings *)

(** Where the reader is in the text. *)
Inductive PState : Type :=
| PStart
| POpen
| PStr (items : list string) (acc : string)
| PEsc (items : list string) (acc : string)
| PHex (items : list string) (acc : string) (digits : nat) (code : N)
| PItem (items : list string)
| PComma (items : list string)
| PEnd (items : list string).

Definition is_ws (n : N) : bool :=
  ((n =? 32) || (n =? 9) || (n =? 10) || (n =? 13))%N.

Definition hex_value (n : N) : option N :=
  if ((48 <=? n) && (n <=? 57))%N then Some (n - 48)%N
  else if ((97 <=? n) && (n <=? 102))%N then Some (n - 87)%N
  else if ((65 <=? n) && (n <=? 70))%N then Some (n - 55)%N
  else None.

Definition snoc (acc : string) (c : ascii) : string := acc +:+ String c "".

(** One character of the text.  [None] is a text that is not an array of
    strings, or that names by [\u] a code unit above 255. *)
Definition pstep (st : PState) (c : ascii) : option PState :=
  let n := N_of_ascii c in
  match st with
  | PStart =>
      if is_ws n then Some PStart
      else if (n =? 91)%N then Some POpen else None
  | POpen =>
      if is_ws n then Some POpen
      else if (n =? 93)%N then Some (PEnd [])
      else if (n =? 34)%N then Some (PStr [] "") else None
  | PStr items acc =>
      if (n =? 34)%N then Some (PItem (items ++ [acc]))
      else if (n =? 92)%N then Some (PEsc items acc)
      else if (n <? 32)%N then None
      else Some (PStr items (snoc acc c))
  | PEsc items acc =>
      if (n =? 34)%N then Some (PStr items (snoc acc dquote))
      else if (n =? 92)%N then Some (PStr items (snoc acc backslash))
      else if (n =? 47)%N then Some (PStr items (snoc acc (ascii_of_N 47)))
      else if (n =? 98)%N then Some (PStr items (snoc acc (ascii_of_N 8)))
      else if (n =? 102)%N then Some (PStr items (snoc acc (ascii_of_N 12)))
      else if (n =? 110)%N then Some (PStr items (snoc acc (ascii_of_N 10)))
      else if (n =? 114)%N then Some (PStr items (snoc acc (ascii_of_N 13)))
      else if (n =? 116)%N then Some (PStr items (snoc acc (ascii_of_N 9)))
      else if (n =? 117)%N then Some (PHex items acc 4 0)
      else None
  | PHex items acc digits code =>
      match hex_value n, digits with
      | Some d, 1%nat =>
          let code := (16 * code + d)%N in
          if (code <? 256)%N then Some (PStr items (snoc acc (ascii_of_N code)))
          else None
      | Some d, S digits' => Some (PHex items acc digits' (16 * code + d)%N)
      | _, _ => None
      end
  | PItem items =>
      if is_ws n then Some (PItem items)
      else if (n =? 44)%N then Some (PComma items)
      else if (n =? 93)%N then Some (PEnd items) else None
  | PComma items =>
      if is_ws n then Some (PComma items)
      else if (n =? 34)%N then Some (PStr items "") else None
  | PEnd items =>
      if is_ws n then Some (PEnd items) else None
  end.

Fixpoint prun (st : PState) (text : string) : option PState :=
  match text with
  | EmptyString => Some st
  | String c text' =>
      match pstep st c with
      | Some st' => prun st' text'
      | None => None
      end
  end.

(** [JSON.parse(text)] when [text] is an array of strings. *)
Definition JSON_parse (text : string) : option (list string) :=
  match prun PStart text with
  | Some (PEnd items) => Some items
  | _ => None
  end.

(** *** The two ends *)

(** The updater of [toggleWatchlist] with the order kept and the text it
    writes under the key ['watchlist']. *)
Definition toggleWatchlist_stored (id : string) (prev : list string)
  : list string * string :=
  let newSet := new_Set prev in
  let newSet := if set_has id newSet then set_delete id newSet
                else set_add id newSet in
  (newSet, JSON_stringify newSet).

(** The initialiser of the [watchlist] state, given whether [window] is
    defined and what [localStorage.getItem('watchlist')] returns.  [None]:
    the saved text is outside what [JSON_parse] reads. *)
Definition initial_watchlist (window_defined : bool) (saved : option string)
  : option (list string) :=
  if window_defined then
    match saved with
    | Some (String c text) => new_Set <$> JSON_parse (String c text)
    | _ => Some (new_Set [])
    end
  else Some (new_Set []).

(* ===================================================================== *)
(** * Part II. Theorems                                                   *)
(* ===================================================================== *)

(** ** Watchlist *)

Lemma toggle_set_self (id : string) (W : gset string) :
  id ∈ toggle_set id W ↔ id ∉ W.
Proof. unfold toggle_set. destruct (decide (id ∈ W)); set_solver. Qed.

Lemma toggle_set_other (id x : string) (W : gset string) :
  x ≠ id → (x ∈ toggle_set id W ↔ x ∈ W).
Proof. intros Hne. unfold toggle_set. destruct (decide (id ∈ W)); set_solver. Qed.

Lemma toggle_set_involutive (id : string) (W : gset string) :
  toggle_set id (toggle_set id W) = W.
Proof.
  apply set_eq. intros x. destruct (decide (x = id)) as [->|Hne].
  - rewrite toggle_set_self, toggle_set_self.
    destruct (decide (id ∈ W)); tauto.
  - by rewrite !toggle_set_other.
Qed.

(** C9. [toggleWatchlist id] flips the membership of [id] (added when
    absent, removed when present), leaves the membership of every other
    identifier as it was, and applied twice gives back the original set;
    each call also saves the set it returns. *)
Theorem C9_toggleWatchlist_flips_exactly_id :
  ∀ (st : WatchState) (i : string),
    (i ∈ watchlist (toggleWatchlist i st) ↔ i ∉ watchlist st)
    ∧ (∀ x, x ≠ i → (x ∈ watchlist (toggleWatchlist i st) ↔ x ∈ watchlist st))
    ∧ watchlist (toggleWatchlist i (toggleWatchlist i st)) = watchlist st
    ∧ stored_watchlist (toggleWatchlist i st) = Some (watchlist (toggleWatchlist i st)).
Proof.
  intros st i. cbn. repeat split.
  - apply toggle_set_self.
  - apply toggle_set_self.
  - by apply toggle_set_other.
  - by apply toggle_set_other.
  - apply toggle_set_involutive.
Qed.

(** A concrete run: starring ["bitcoin"] in a list that holds ["ethereum"]. *)
Lemma C9_toggleWatchlist_witness :
  let st := {| watchlist := {[ "ethereum" ]}; stored_watchlist := None |} in
  ("ethereum" ∈ watchlist (toggleWatchlist "bitcoin" st) ↔ "ethereum" ∈ watchlist st)
  ∧ watchlist (toggleWatchlist "bitcoin" (toggleWatchlist "bitcoin" st)) = watchlist st.
Proof.
  intros st.
  destruct (C9_toggleWatchlist_flips_exactly_id st "bitcoin") as (_ & Hother & Htwice & _).
  split; [apply Hother; discriminate | exact Htwice].
Defined.

(** ** Search filter *)

Section StringFacts.

Lemma append_nil (s : string) : "" +:+ s = s.
Proof. reflexivity. Qed.

Lemma append_cons (x : ascii) (a b : string) :
  String x a +:+ b = String x (a +:+ b).
Proof. reflexivity. Qed.

Lemma startsWith_spec (s sub : string) :
  startsWith s sub = true ↔ ∃ post, s = sub +:+ post.
Proof.
  revert s. induction sub as [|a sub IH]; intros s; cbn [startsWith].
  - split; [intros _; by exists s | done].
  - destruct s as [|b s].
    + split; [done | intros [post Hpost]; discriminate].
    + destruct (ascii_dec a b) as [->|Hne]; cbn [andb].
      * rewrite IH. split; intros [post Hpost]; exists post.
        -- by rewrite append_cons, Hpost.
        -- rewrite append_cons in Hpost. congruence.
      * split; [done | intros [post Hpost]].
        rewrite append_cons in Hpost. congruence.
Qed.

Lemma includes_spec (s sub : string) :
  includes s sub = true ↔ ∃ pre post, s = pre +:+ sub +:+ post.
Proof.
  induction s as [|c s IH]; cbn [includes]; rewrite orb_true_iff, startsWith_spec.
  - split.
    + intros [[post Hpost] | ?]; [by exists "", post | done].
    + intros (pre & post & Heq). left.
      destruct pre; [by exists post | discriminate].
  - rewrite IH. split.
    + intros [[post Hpost] | (pre & post & ->)];
        [by exists "", post | by exists (String c pre), post].
    + intros (pre & post & Heq). destruct pre as [|x pre].
      * left. by exists post.
      * right. rewrite append_cons in Heq. injection Heq as -> ->.
        by exists pre, post.
Qed.

Lemma includes_empty (s : string) : includes s "" = true.
Proof. destruct s; reflexivity. Qed.

Lemma string_app_assoc (a b c : string) : (a +:+ b) +:+ c = a +:+ (b +:+ c).
Proof.
  induction a as [|x a IH]; [done |]. rewrite !append_cons. by rewrite IH.
Qed.

(** *** Lower case on ASCII text *)

Lemma ascii_fold_app (a b : string) :
  ascii_fold (a +:+ b) = ascii_fold a +:+ ascii_fold b.
Proof.
  induction a as [|x a IH]; [done |].
  rewrite append_cons. cbn [ascii_fold]. by rewrite append_cons, IH.
Qed.

(** A split of the folded string comes from a split of the string. *)
Lemma ascii_fold_split (s a b : string) :
  ascii_fold s = a +:+ b →
  ∃ s1 s2, s = s1 +:+ s2 ∧ ascii_fold s1 = a ∧ ascii_fold s2 = b.
Proof.
  revert s. induction a as [|x a IH]; intros s Heq.
  - by exists "", s.
  - destruct s as [|c s]; [discriminate |].
    rewrite append_cons in Heq. cbn [ascii_fold] in Heq.
    injection Heq as Hc Hrest. destruct (IH _ Hrest) as (s1 & s2 & -> & H1 & H2).
    exists (String c s1), s2. cbn [ascii_fold]. by rewrite Hc, H1.
Qed.

Lemma is_ascii_app (a b : string) :
  is_ascii (a +:+ b) = (is_ascii a && is_ascii b)%bool.
Proof.
  induction a as [|x a IH]; [done |].
  rewrite append_cons. cbn [is_ascii]. by rewrite IH, andb_assoc.
Qed.

Lemma decode_utf8_ascii (c : ascii) (s : string) :
  (N_of_ascii c <? 128)%N = true →
  decode_utf8 (String c s) = Cp (N_of_ascii c) :: decode_utf8 s.
Proof. intros H. cbn [decode_utf8]. cbv zeta. by rewrite H. Qed.

(** An ASCII character is lower-cased by itself, whatever is around it. *)
Lemma lower_item_ascii (before after rest : list Item) (c : ascii) :
  (N_of_ascii c <? 128)%N = true →
  encode_utf8 (lower_item before after (Cp (N_of_ascii c)) ++ rest)
  = String (ascii_fold_char c) (encode_utf8 rest).
Proof.
  destruct c as [b0 b1 b2 b3 b4 b5 b6 b7].
  destruct b7; [by destruct b0, b1, b2, b3, b4, b5, b6 |].
  intros _. by destruct b0, b1, b2, b3, b4, b5, b6.
Qed.

Lemma lower_items_ascii (before : list Item) (s : string) :
  is_ascii s = true →
  encode_utf8 (lower_items before (decode_utf8 s)) = ascii_fold s.
Proof.
  revert before. induction s as [|c s IH]; intros before Hs; [done |].
  cbn [is_ascii] in Hs. apply andb_true_iff in Hs as [Hc Hs].
  rewrite decode_utf8_ascii by done. cbn [lower_items ascii_fold].
  rewrite lower_item_ascii by done. by rewrite IH.
Qed.

(** On ASCII text [toLowerCase] folds the letters A to Z and nothing else. *)
Lemma toLowerCase_ascii (s : string) :
  is_ascii s = true → toLowerCase s = ascii_fold s.
Proof. apply lower_items_ascii. Qed.

Lemma N_of_ascii_fold (c : ascii) :
  N_of_ascii (ascii_fold_char c)
  = let n := N_of_ascii c in
    if ((65 <=? n) && (n <=? 90))%N then (n + 32)%N else n.
Proof.
  unfold ascii_fold_char. cbv zeta.
  destruct ((65 <=? N_of_ascii c) && (N_of_ascii c <=? 90))%N eqn:H; [| done].
  apply andb_true_iff in H as [_ H]. apply N.leb_le in H.
  apply N_ascii_embedding. lia.
Qed.

Lemma ascii_fold_char_eq (a b : ascii) :
  ascii_fold_char a = ascii_fold_char b ↔ letter_eq_ci a b = true.
Proof.
  assert (Hinj : ascii_fold_char a = ascii_fold_char b
                 ↔ N_of_ascii (ascii_fold_char a) = N_of_ascii (ascii_fold_char b)).
  { split; [by intros -> |]. intros H.
    rewrite <- (ascii_N_embedding (ascii_fold_char a)), H.
    apply ascii_N_embedding. }
  rewrite Hinj, !N_of_ascii_fold. unfold letter_eq_ci. cbv zeta.
  generalize (N_of_ascii a) (N_of_ascii b). intros x y.
  rewrite !orb_true_iff, !andb_true_iff, !N.eqb_eq, !N.leb_le.
  destruct (N.leb_spec 65 x), (N.leb_spec x 90), (N.leb_spec 65 y),
    (N.leb_spec y 90); cbn [andb]; lia.
Qed.

Lemma ascii_fold_eq (u t : string) :
  ascii_fold u = ascii_fold t ↔ string_eq_ci u t = true.
Proof.
  revert t. induction u as [|a u IH]; intros [|b t]; cbn [ascii_fold string_eq_ci];
    try done.
  rewrite andb_true_iff, <- IH, <- ascii_fold_char_eq.
  split; [by intros [= -> ->] | by intros [-> ->]].
Qed.

Lemma string_eq_ci_ascii (u t : string) :
  string_eq_ci u t = true → is_ascii t = true → is_ascii u = true.
Proof.
  revert t. induction u as [|a u IH]; intros [|b t]; cbn [is_ascii string_eq_ci];
    try done.
  rewrite !andb_true_iff. intros [Hab Hut] [Hb Ht]. split; [| by eapply IH].
  unfold letter_eq_ci in Hab. cbv zeta in Hab.
  rewrite !orb_true_iff, !andb_true_iff, !N.eqb_eq, !N.leb_le in Hab.
  apply N.ltb_lt in Hb. apply N.ltb_lt. lia.
Qed.

Lemma includes_lowered (s t : string) :
  includes (toLowerCase s) (toLowerCase t) = true ↔ lowered_contains s t.
Proof. apply includes_spec. Qed.

(** On ASCII text the lowered string contains the lowered term exactly when
    the string contains the term up to the case of the letters A to Z. *)
Lemma includes_lowered_ascii (s t : string) :
  is_ascii s = true → is_ascii t = true →
  includes (toLowerCase s) (toLowerCase t) = true
  ↔ contains_upto same_ascii_letters s t.
Proof.
  intros Hs Ht. rewrite !toLowerCase_ascii by done. rewrite includes_spec.
  unfold contains_upto, same_ascii_letters. split.
  - intros (pre & post & Heq).
    destruct (ascii_fold_split _ _ _ Heq) as (s1 & s23 & -> & _ & H23).
    destruct (ascii_fold_split _ _ _ H23) as (u & s3 & -> & Hu & _).
    exists s1, u, s3. split; [done |]. by apply ascii_fold_eq.
  - intros (pre & u & post & -> & Hu). apply ascii_fold_eq in Hu.
    exists (ascii_fold pre), (ascii_fold post).
    by rewrite !ascii_fold_app, Hu.
Qed.

(** Lengthening an ASCII term keeps its lower-case form inside that of the
    longer term. *)
Lemma toLowerCase_ascii_app (x t y : string) :
  is_ascii x = true → is_ascii t = true → is_ascii y = true →
  toLowerCase (x +:+ t +:+ y)
  = toLowerCase x +:+ toLowerCase t +:+ toLowerCase y.
Proof.
  intros Hx Ht Hy.
  rewrite !toLowerCase_ascii; rewrite ?is_ascii_app, ?Hx, ?Ht, ?Hy; try done.
  by rewrite !ascii_fold_app.
Qed.

End StringFacts.

Lemma matches_spec (searchTerm : string) (crypto : Cryptocurrency) :
  matches searchTerm crypto = true ↔ matches_lowered searchTerm crypto.
Proof.
  unfold matches, matches_lowered.
  by rewrite orb_true_iff, !includes_lowered.
Qed.

Lemma matches_ascii_spec (searchTerm : string) (crypto : Cryptocurrency) :
  is_ascii searchTerm = true →
  is_ascii (name crypto) = true ∧ is_ascii (symbol crypto) = true →
  matches searchTerm crypto = true
  ↔ matches_upto same_ascii_letters searchTerm crypto.
Proof.
  intros Ht [Hn Hs]. unfold matches, matches_upto.
  by rewrite orb_true_iff, !includes_lowered_ascii.
Qed.

Section Selects.
Context {A : Type} (P : A → Prop).

Lemma filter_selects (f : A → bool) (l : list A) :
  (∀ x, f x = true ↔ P x) → selects P l (List.filter f l).
Proof.
  intros Hf. induction l as [|x l IH]; cbn; [constructor |].
  destruct (f x) eqn:Hx.
  - apply selects_keep; [by apply Hf | done].
  - apply selects_drop; [| done]. rewrite <- Hf. congruence.
Qed.

Lemma filter_selects_on (Q : A → Prop) (f : A → bool) (l : list A) :
  Forall Q l → (∀ x, Q x → (f x = true ↔ P x)) → selects P l (List.filter f l).
Proof.
  intros Hl Hf. induction Hl as [|x l Hx _ IH]; cbn; [constructor |].
  destruct (f x) eqn:Hfx.
  - apply selects_keep; [by apply Hf | done].
  - apply selects_drop; [| done]. rewrite <- (Hf x Hx). congruence.
Qed.

Lemma selects_functional (l l1 l2 : list A) :
  selects P l l1 → selects P l l2 → l1 = l2.
Proof.
  intros H1. revert l2.
  induction H1 as [|x l l1 Hx _ IH|x l l1 Hx _ IH]; intros l2 H2;
    inversion H2; subst; try done.
  - f_equal. by apply IH.
  - by apply IH.
Qed.

Lemma selects_sublist (l l' : list A) : selects P l l' → l' `sublist_of` l.
Proof. induction 1; by constructor. Qed.

End Selects.

Lemma filteredCryptos_all (cryptocurrencies : list Cryptocurrency) :
  filteredCryptos cryptocurrencies "" = cryptocurrencies.
Proof.
  unfold filteredCryptos. induction cryptocurrencies as [|c l IH]; cbn; [done |].
  unfold matches at 1. change (toLowerCase "") with "".
  rewrite includes_empty. cbn. by rewrite IH.
Qed.

(** Letters outside ASCII are lower-cased too: the page finds "ÉCU Coin"
    under "écu". *)
Example accented_capital_is_lowered :
  toLowerCase "ÉCU Coin" = "écu coin"
  ∧ filteredCryptos [bitcoin; ecu] "écu" = [ecu].
Proof. by vm_compute. Qed.

(** A capital sigma is lower-cased by its place in its own string: final
    in the term, medial in the name. *)
Example sigma_by_position :
  toLowerCase "ΑΣ" = "ας" ∧ toLowerCase "ΑΣΑ" = "ασα".
Proof. by vm_compute. Qed.

(** Whatever "the same up to case" is taken to mean, as long as a string is
    the same as itself, the rows shown are not always the entries that
    contain the term: the name "ΑΣΑ" has the term "ΑΣ" in it as typed, and
    its row is not shown. *)
Lemma no_reading_fits (same : string → string → Prop) :
  (∀ u, same u u) → ¬ shows_what_contains_the_term same.
Proof.
  intros Hrefl Hshows.
  specialize (Hshows [alpha_sigma_alpha] "ΑΣ").
  replace (filteredCryptos [alpha_sigma_alpha] "ΑΣ") with (@nil Cryptocurrency)
    in Hshows by (by vm_compute).
  inversion Hshows as [| |x l l' Hdrop _]; subst.
  apply Hdrop. left. exists "", "ΑΣ", "Α". split; [reflexivity | apply Hrefl].
Qed.

(** C10 (as stated, refuted). The entry named "ΑΣΑ" contains the search
    term "ΑΣ" letter for letter, yet the filter drops it: the term is
    lower-cased to "ας" (sigma final) and the name to "ασα" (sigma medial).
    So the rows shown are not the entries that contain the term up to
    case. *)
Lemma C10_final_sigma_counterexample :
  includes (name alpha_sigma_alpha) "ΑΣ" = true
  ∧ toLowerCase "ΑΣ" = "ας"
  ∧ toLowerCase (name alpha_sigma_alpha) = "ασα"
  ∧ filteredCryptos [alpha_sigma_alpha] "ΑΣ" = []
  ∧ ¬ shows_what_contains_the_term same_letters.
Proof.
  split; [by vm_compute |]. split; [by vm_compute |]. split; [by vm_compute |].
  split; [by vm_compute |]. by apply no_reading_fits.
Qed.

(** C10 (amended). The displayed list is the fetched list with exactly the
    entries kept whose lower-cased name or lower-cased symbol contains the
    lower-cased search term, each string lower-cased on its own, in their
    original order; it is the only such list, it is a subsequence of the
    fetched one, and the empty term keeps every entry.  When the term and
    every name and symbol are ASCII, the entries kept are exactly those
    whose name or symbol contains the term up to the case of the letters A
    to Z. *)
Theorem C10_filteredCryptos_is_the_lowered_subsequence :
  ∀ (cryptocurrencies : list Cryptocurrency) (searchTerm : string),
    selects (matches_lowered searchTerm) cryptocurrencies
            (filteredCryptos cryptocurrencies searchTerm)
    ∧ (∀ shown, selects (matches_lowered searchTerm) cryptocurrencies shown →
                shown = filteredCryptos cryptocurrencies searchTerm)
    ∧ filteredCryptos cryptocurrencies searchTerm `sublist_of` cryptocurrencies
    ∧ filteredCryptos cryptocurrencies "" = cryptocurrencies
    ∧ (is_ascii searchTerm = true →
       Forall (λ crypto, is_ascii (name crypto) = true
                         ∧ is_ascii (symbol crypto) = true) cryptocurrencies →
       selects (matches_upto same_ascii_letters searchTerm) cryptocurrencies
               (filteredCryptos cryptocurrencies searchTerm)
       ∧ ∀ shown,
           selects (matches_upto same_ascii_letters searchTerm)
                   cryptocurrencies shown →
           shown = filteredCryptos cryptocurrencies searchTerm).
Proof.
  intros l t.
  assert (Hsel : selects (matches_lowered t) l (filteredCryptos l t))
    by (apply filter_selects, matches_spec).
  split; [exact Hsel |].
  split; [intros shown Hshown; exact (selects_functional _ _ _ _ Hshown Hsel) |].
  split; [exact (selects_sublist _ _ _ Hsel) |].
  split; [apply filteredCryptos_all |].
  intros Ht Hl.
  assert (Hascii : selects (matches_upto same_ascii_letters t) l
                           (filteredCryptos l t)).
  { eapply filter_selects_on; [exact Hl |].
    intros c Hc. by apply matches_ascii_spec. }
  split; [exact Hascii |].
  intros shown Hshown. exact (selects_functional _ _ _ _ Hshown Hascii).
Qed.

(** Searching ["BIT"] in a list of two: only Bitcoin is shown, and nothing
    else could be. *)
Lemma C10_filteredCryptos_witness :
  selects (matches_upto same_ascii_letters "BIT") [bitcoin; ethereum] [bitcoin]
  ∧ [bitcoin] = filteredCryptos [bitcoin; ethereum] "BIT"
  ∧ filteredCryptos [bitcoin; ethereum] "" = [bitcoin; ethereum].
Proof.
  destruct (C10_filteredCryptos_is_the_lowered_subsequence [bitcoin; ethereum] "BIT")
    as (_ & _ & _ & _ & Hascii).
  destruct Hascii as [Hsel Huniq];
    [reflexivity | by repeat constructor |].
  destruct (C10_filteredCryptos_is_the_lowered_subsequence [bitcoin; ethereum] "")
    as (_ & _ & _ & Hall & _).
  split; [exact Hsel |]. split; [exact (Huniq [bitcoin] Hsel) | exact Hall].
Defined.

(** ** One invocation of [fetchCryptoData] *)

Section OneAttempt.
Context (retry : nat) (useBackup : bool) (now : Z) (st : State).

Lemma attempt_answers (a : Attempt) (response : Response) :
  answers a response →
  attempt retry useBackup a now st =
    let now' := now + latency a + body_latency a in
    match try_response retry useBackup response now' st with
    | inl step => step
    | inr e => catch_block retry useBackup e now' st
    end.
Proof.
  intros [Hreply Hlat]. unfold attempt, fetchWithTimeout.
  apply Z.ltb_lt in Hlat. by rewrite Hlat, Hreply.
Qed.

(** The [catch] block on an [Error] raised by the [try] block itself. *)
Lemma catch_block_Error (msg : string) (t : Z) :
  catch_block retry useBackup (Error msg) t st =
    let st' := setLoading false (setError (Some msg) st) in
    if ((retry <? MAX_RETRIES)%nat && negb (no_retry msg))%bool
    then mkStep [] t (setRetryCount (retry + 1) st') (Again (retry + 1) useBackup)
    else mkStep [] t st' (Stop (Failed msg)).
Proof. reflexivity. Qed.

Lemma try_response_404 (response : Response) (t : Z) :
  status response = 404%nat →
  try_response retry useBackup response t st =
    inr (Error "The requested data is not available.").
Proof. intros H. unfold try_response, ok. by rewrite H. Qed.

Lemma try_response_transient (response : Response) (t : Z) :
  transient response = true →
  try_response retry useBackup response t st =
    inr (Error (http_error_message response)).
Proof.
  unfold transient, try_response. rewrite !andb_true_iff, !negb_true_iff.
  by intros [[[-> ->] ->] ->].
Qed.

Lemma try_response_429 (response : Response) (t : Z) :
  status response = 429%nat → (retry < MAX_RETRIES)%nat →
  try_response retry useBackup response t st =
    inl (mkStep [EvSleep 5000] (t + 5000) (setRetryCount (retry + 1) st)
           (Again (retry + 1) useBackup)).
Proof.
  intros H Hlt. apply Nat.ltb_lt in Hlt.
  unfold try_response, ok. by rewrite H, Hlt.
Qed.

Lemma try_response_empty (response : Response) (t : Z) :
  ok response = true → json response = inr (JArray []) →
  try_response retry useBackup response t st =
    inr (Error "No cryptocurrency data available").
Proof. intros Hok Hjson. unfold try_response. by rewrite Hok, Hjson. Qed.

Lemma try_response_not_array (response : Response) (t : Z) :
  ok response = true → json response = inr JNotArray →
  try_response retry useBackup response t st =
    inr (Error "Invalid data format received from API").
Proof. intros Hok Hjson. unfold try_response. by rewrite Hok, Hjson. Qed.

End OneAttempt.

(** The power in [delay], for the retry that follows attempt [retry]. *)
Lemma delay_succ (retry : nat) :
  delay (retry + 1) = INITIAL_RETRY_DELAY * 2 ^ Z.of_nat retry.
Proof.
  unfold delay. replace (retry + 1)%nat with (S retry) by lia.
  cbn [Nat.ltb Nat.leb]. f_equal. f_equal. lia.
Qed.

Lemma backoff_events (retry : nat) (now : Z) (st : State) :
  fst (fst (backoff retry now st)) =
    if (0 <? retry)%nat then [EvSleep (delay retry)] else [].
Proof. unfold backoff. by destruct (0 <? retry)%nat. Qed.

(** A cycle's trace when its current invocation goes round again. *)
Lemma fetchCryptoData_again (a : Attempt) (rest : list Attempt)
    (retry : nat) (useBackup : bool) (now : Z) (st : State)
    (retry' : nat) (useBackup' : bool) :
  let b := backoff retry now st in
  let step := attempt retry useBackup a (snd (fst b)) (snd b) in
  s_next step = Again retry' useBackup' →
  fetchCryptoData (a :: rest) retry useBackup now st =
    let r := fetchCryptoData rest retry' useBackup' (s_clock step) (s_state step) in
    {| trace := (fst (fst b) ++ request retry useBackup :: s_events step) ++ trace r;
       clock := clock r; state := state r; outcome := outcome r |}.
Proof.
  cbn zeta. intros Hnext. cbn [fetchCryptoData].
  destruct (backoff retry now st) as [[waited now'] st']. cbn [fst snd] in *.
  by rewrite Hnext.
Qed.

Lemma fetchCryptoData_stop (a : Attempt) (rest : list Attempt)
    (retry : nat) (useBackup : bool) (now : Z) (st : State) (s : Settlement) :
  let b := backoff retry now st in
  let step := attempt retry useBackup a (snd (fst b)) (snd b) in
  s_next step = Stop s →
  fetchCryptoData (a :: rest) retry useBackup now st =
    {| trace := fst (fst b) ++ request retry useBackup :: s_events step;
       clock := s_clock step; state := s_state step; outcome := Settled s |}.
Proof.
  cbn zeta. intros Hnext. cbn [fetchCryptoData].
  destruct (backoff retry now st) as [[waited now'] st']. cbn [fst snd] in *.
  by rewrite Hnext.
Qed.

(** Every invocation opens with its backoff and its request. *)
Lemma fetchCryptoData_opens (script : list Attempt) (retry : nat)
    (useBackup : bool) (now : Z) (st : State) :
  ∃ tail,
    trace (fetchCryptoData script retry useBackup now st) =
      fst (fst (backoff retry now st)) ++ request retry useBackup :: tail.
Proof.
  destruct script as [|a rest]; cbn [fetchCryptoData];
    destruct (backoff retry now st) as [[waited now'] st']; cbn [fst snd].
  - by exists [].
  - destruct (s_next _); cbn [trace].
    + rewrite <- app_assoc. cbn [app]. by eexists.
    + by eexists.
Qed.

(** ** The routine on a few short scripts *)

(** HTTP 200 with three entries at the first request: settled, succeeded,
    with those entries, one request, no wait. *)
Example served_at_once :
  let r := fetchCryptoData [http_ok [bitcoin; ethereum; bitcoin] 50] 0 false 0 initialState in
  outcome r = Settled (Succeeded [bitcoin; ethereum; bitcoin] false)
  ∧ requests (trace r) = [(0%nat, false)]
  ∧ cryptocurrencies (state r) = [bitcoin; ethereum; bitcoin]
  ∧ retryCount (state r) = 0%nat.
Proof. by vm_compute. Qed.

(** HTTP 429, then HTTP 200: succeeded at [retry = 1] on the same endpoint. *)
Example served_after_rate_limit :
  let r := fetchCryptoData [http 429; http_ok [bitcoin] 50] 0 false 0 initialState in
  outcome r = Settled (Succeeded [bitcoin] false)
  ∧ requests (trace r) = [(0%nat, false); (1%nat, false)].
Proof. by vm_compute. Qed.

(** HTTP 403 on primary, then HTTP 200 on backup. *)
Example served_by_backup :
  let r := fetchCryptoData [http 403; http_ok [bitcoin] 50] 0 false 0 initialState in
  outcome r = Settled (Succeeded [bitcoin] true)
  ∧ requests (trace r) = [(0%nat, false); (0%nat, true)]
  ∧ waits (trace r) = [0; 0].
Proof. by vm_compute. Qed.

(** A first request that is still unanswered after 20 s is aborted and
    the cycle moves to backup at once, without touching the state; a
    timeout on backup is retried with backoff. *)
Example timed_out_on_primary :
  let silent := {| reply := Resolves (mkResponse 200 None (inr (JArray [bitcoin])));
                   latency := 25000; body_latency := 0 |} in
  let r := fetchCryptoData [silent; silent; http_ok [bitcoin] 50] 0 false 0 initialState in
  requests (trace r) = [(0%nat, false); (0%nat, true); (1%nat, true)]
  ∧ waits (trace r) = [0; 0; 2000]
  ∧ clock r = 42150
  ∧ outcome r = Settled (Succeeded [bitcoin] true).
Proof. by vm_compute. Qed.

(** HTTP 403 on backup ends the cycle. *)
Example refused_by_backup :
  outcome (fetchCryptoData [http 403; http 403] 0 false 0 initialState)
  = Settled (Failed "Access denied. Please check your API permissions.").
Proof. by vm_compute. Qed.

(** Server errors throughout: the sixth request is made with [retry = 5],
    and its failure ends the cycle; five are not enough to end it. *)
Example server_errors_throughout :
  outcome (fetchCryptoData (repeat (http 500) 5) 0 false 0 initialState) = AwaitingResponse
  ∧ (let r := fetchCryptoData (repeat (http 500) 6) 0 false 0 initialState in
     outcome r = Settled (Failed "HTTP error! status: 500")
     ∧ waits (trace r) = [0; 2000; 4000; 8000; 16000; 32000]
     ∧ retryCount (state r) = 5%nat).
Proof. by vm_compute. Qed.

(** ** C1: HTTP 404 *)

(** C1 (as stated, refuted). A 404 on the first attempt does not end the
    cycle: the routine goes round again with [retry = 1] on the same
    endpoint, and a cycle that meets nothing but 404s issues six requests
    before it fails. *)
Lemma C1_NotFound_counterexample :
  s_next (attempt 0 false (http 404) 0 initialState) = Again 1 false
  ∧ requests (trace (fetchCryptoData (repeat (http 404) 6) 0 false 0 initialState))
    = [(0, false); (1, false); (2, false); (3, false); (4, false); (5, false)]%nat
  ∧ ¬ NotFound_is_terminal.
Proof.
  split; [reflexivity |]. split; [reflexivity |].
  intros H.
  destruct (H 0%nat false (http 404) _ 0 initialState
              (conj eq_refl eq_refl) eq_refl) as [msg Hmsg].
  discriminate Hmsg.
Qed.

(** C1 (amended). A 404 is handled like any other failure whose message is
    not on the no-retry list: below the retry limit the routine goes round
    again with [retry + 1] on the same endpoint; only at [retry =
    MAX_RETRIES] does the cycle end, failed, with the not-available
    message. *)
Theorem C1_NotFound_retried_until_limit :
  ∀ (retry : nat) (useBackup : bool) (a : Attempt) (response : Response)
    (now : Z) (st : State),
    answers a response → status response = 404%nat →
    s_next (attempt retry useBackup a now st) =
      if (retry <? MAX_RETRIES)%nat then Again (retry + 1) useBackup
      else Stop (Failed "The requested data is not available.").
Proof.
  intros retry useBackup a response now st Ha H404.
  rewrite (attempt_answers _ _ _ _ _ _ Ha). cbn zeta.
  rewrite try_response_404 by done. rewrite catch_block_Error. cbn zeta.
  change (no_retry "The requested data is not available.") with false.
  cbn [negb]. rewrite andb_true_r. by destruct (retry <? MAX_RETRIES)%nat.
Qed.

(** At [retry = 5] on backup a 404 ends the cycle. *)
Lemma C1_NotFound_witness :
  s_next (attempt 5 true (http 404) 0 initialState)
  = Stop (Failed "The requested data is not available.").
Proof.
  exact (C1_NotFound_retried_until_limit 5 true (http 404) _ 0 initialState
           (conj eq_refl eq_refl) eq_refl).
Defined.

(** ** C3: HTTP 2xx with an empty array *)

(** C3 (as stated, refuted). HTTP 200 with body [[]] on the first attempt
    does not end the cycle; a cycle that keeps receiving it makes five
    retries, doubling the wait each time, and then fails with a message
    outside the invalid-data class. *)
Lemma C3_empty_array_counterexample :
  s_next (attempt 0 false (http_ok [] 0) 0 initialState) = Again 1 false
  ∧ (let r := fetchCryptoData (repeat (http_ok [] 0) 6) 0 false 0 initialState in
     waits (trace r) = [0; 2000; 4000; 8000; 16000; 32000]
     ∧ outcome r = Settled (Failed "No cryptocurrency data available"))
  ∧ ¬ empty_array_is_terminal.
Proof.
  split; [reflexivity |]. split; [by vm_compute |].
  intros H.
  destruct (H 0%nat false (http_ok [] 0) _ 0 initialState
              (conj eq_refl eq_refl) eq_refl eq_refl) as [msg Hmsg].
  discriminate Hmsg.
Qed.

(** A 2xx body that parses to something other than an array ends the
    cycle at once: its message is on the no-retry list. *)
Lemma not_an_array_ends_cycle (retry : nat) (useBackup : bool) (a : Attempt)
    (response : Response) (now : Z) (st : State) :
  answers a response → ok response = true → json response = inr JNotArray →
  s_next (attempt retry useBackup a now st)
  = Stop (Failed "Invalid data format received from API").
Proof.
  intros Ha Hok Hjson.
  rewrite (attempt_answers _ _ _ _ _ _ Ha). cbn zeta.
  rewrite try_response_not_array by done. rewrite catch_block_Error. cbn zeta.
  change (no_retry "Invalid data format received from API") with true.
  cbn [negb]. by rewrite andb_false_r.
Qed.

(** A 2xx body that does not parse is another matter: what [response.json()]
    throws goes to the [catch] block like any other error, and is retried
    below the limit unless its message is on the no-retry list. *)
Lemma unparseable_body_is_retried (retry : nat) (useBackup : bool) (a : Attempt)
    (response : Response) (msg : string) (now : Z) (st : State) :
  answers a response → ok response = true → json response = inl (Error msg) →
  s_next (attempt retry useBackup a now st)
  = if ((retry <? MAX_RETRIES)%nat && negb (no_retry msg))%bool
    then Again (retry + 1) useBackup else Stop (Failed msg).
Proof.
  intros Ha Hok Hjson.
  rewrite (attempt_answers _ _ _ _ _ _ Ha). cbn zeta.
  unfold try_response. rewrite Hok, Hjson. cbn [negb].
  rewrite catch_block_Error. cbn zeta.
  by destruct ((retry <? MAX_RETRIES)%nat && negb (no_retry msg))%bool.
Qed.

(** C3 (amended). An empty array in a 2xx reply is retried below the retry
    limit, with [retry + 1] on the same endpoint, and ends the cycle, failed
    with the no-data message, only at [retry = MAX_RETRIES]. *)
Theorem C3_empty_array_retried_until_limit :
  ∀ (retry : nat) (useBackup : bool) (a : Attempt) (response : Response)
    (now : Z) (st : State),
    answers a response → ok response = true →
    json response = inr (JArray []) →
    s_next (attempt retry useBackup a now st) =
      if (retry <? MAX_RETRIES)%nat then Again (retry + 1) useBackup
      else Stop (Failed "No cryptocurrency data available").
Proof.
  intros retry useBackup a response now st Ha Hok Hjson.
  rewrite (attempt_answers _ _ _ _ _ _ Ha). cbn zeta.
  rewrite try_response_empty by done. rewrite catch_block_Error. cbn zeta.
  change (no_retry "No cryptocurrency data available") with false.
  cbn [negb]. rewrite andb_true_r. by destruct (retry <? MAX_RETRIES)%nat.
Qed.

(** At [retry = 4] the empty array is retried once more; at [retry = 5] it
    ends the cycle. *)
Lemma C3_empty_array_witness :
  s_next (attempt 4 false (http_ok [] 0) 0 initialState) = Again 5 false
  ∧ s_next (attempt 5 false (http_ok [] 0) 0 initialState)
    = Stop (Failed "No cryptocurrency data available").
Proof.
  split.
  - exact (C3_empty_array_retried_until_limit 4 false (http_ok [] 0) _ 0
             initialState (conj eq_refl eq_refl) eq_refl eq_refl).
  - exact (C3_empty_array_retried_until_limit 5 false (http_ok [] 0) _ 0
             initialState (conj eq_refl eq_refl) eq_refl eq_refl).
Defined.

(** ** C7: transient failures and exponential backoff *)

(** C7 (as stated, refuted). A transient reply is not always retried below
    the limit: HTTP 503 whose JSON body carries [error: "Rate limit
    exceeded"] ends the cycle on the first attempt, because the message
    contains an entry of [noRetryErrors]. *)
Lemma C7_transient_counterexample :
  transient (mkResponse 503 (Some "Rate limit exceeded") (inr JNotArray)) = true
  ∧ s_next (attempt 0 false (http_with_error 503 "Rate limit exceeded") 0 initialState)
    = Stop (Failed "Rate limit exceeded")
  ∧ ¬ transient_is_retried.
Proof.
  split; [reflexivity |]. split; [reflexivity |].
  intros H.
  specialize (H 0%nat false (http_with_error 503 "Rate limit exceeded") _ 0
                initialState (conj eq_refl eq_refl) eq_refl).
  assert (Hlt : (0 < MAX_RETRIES)%nat) by (unfold MAX_RETRIES; lia).
  specialize (H Hlt). discriminate H.
Qed.

(** C7 (amended). For a transient reply at attempt [retry], with [msg] its
    message: if [retry < MAX_RETRIES] and [msg] contains no entry of
    [noRetryErrors], the routine goes round again with [retry + 1] on the
    same endpoint, and that retry, the [(retry + 1)]-th, sleeps exactly
    [INITIAL_RETRY_DELAY * 2 ^ retry] before its request (so the first retry
    waits the base delay); otherwise the cycle ends, failed with [msg],
    which is also the error left on display. *)
Theorem C7_transient_backoff :
  ∀ (retry : nat) (useBackup : bool) (a : Attempt) (response : Response)
    (now : Z) (st : State),
    answers a response → transient response = true →
    let msg := http_error_message response in
    let step := attempt retry useBackup a now st in
    (s_next step =
       if ((retry <? MAX_RETRIES)%nat && negb (no_retry msg))%bool
       then Again (retry + 1) useBackup else Stop (Failed msg))
    ∧ error (s_state step) = Some msg
    ∧ ((retry < MAX_RETRIES)%nat → no_retry msg = false →
       ∀ rest, ∃ tail,
         trace (fetchCryptoData (a :: rest) retry useBackup now st) =
           fst (fst (backoff retry now st)) ++
           request retry useBackup ::
           EvSleep (INITIAL_RETRY_DELAY * 2 ^ Z.of_nat retry) ::
           request (retry + 1) useBackup :: tail).
Proof.
  intros retry useBackup a response now st Ha Htr msg step.
  assert (Hstep : ∀ t s,
    attempt retry useBackup a t s =
      let s' := setLoading false (setError (Some msg) s) in
      let t' := t + latency a + body_latency a in
      if ((retry <? MAX_RETRIES)%nat && negb (no_retry msg))%bool
      then mkStep [] t' (setRetryCount (retry + 1) s') (Again (retry + 1) useBackup)
      else mkStep [] t' s' (Stop (Failed msg))).
  { intros t s. rewrite (attempt_answers _ _ _ _ _ _ Ha). cbn zeta.
    rewrite try_response_transient by done. by rewrite catch_block_Error. }
  split; [| split].
  - subst step. rewrite Hstep. cbn zeta. by destruct (_ && _)%bool.
  - subst step. rewrite Hstep. cbn zeta. by destruct (_ && _)%bool.
  - intros Hlt Hmsg rest. apply Nat.ltb_lt in Hlt.
    assert (Hnext : s_next (attempt retry useBackup a
                              (snd (fst (backoff retry now st)))
                              (snd (backoff retry now st)))
                    = Again (retry + 1) useBackup).
    { rewrite Hstep. cbn zeta. by rewrite Hlt, Hmsg. }
    rewrite (fetchCryptoData_again _ rest _ _ _ _ _ _ Hnext). cbn zeta. cbn [trace].
    rewrite Hstep. cbn zeta. rewrite Hlt, Hmsg. cbn [andb negb s_events s_clock s_state].
    match goal with |- context [trace (fetchCryptoData rest ?r ?b ?t ?s)] =>
      destruct (fetchCryptoData_opens rest r b t s) as [tail ->];
      rewrite (backoff_events r t s) end.
    replace (0 <? retry + 1)%nat with true by (symmetry; apply Nat.ltb_lt; lia).
    rewrite delay_succ. exists tail. by rewrite <- app_assoc.
Qed.

(** HTTP 500 on the first attempt: retried as [retry = 1] after two
    seconds. *)
Lemma C7_transient_witness :
  s_next (attempt 0 false (http 500) 0 initialState) = Again 1 false
  ∧ ∃ tail,
      trace (fetchCryptoData [http 500; http 500] 0 false 0 initialState) =
        request 0 false :: EvSleep 2000 :: request 1 false :: tail.
Proof.
  pose proof (C7_transient_backoff 0 false (http 500) _ 0 initialState
                (conj eq_refl eq_refl) eq_refl) as (Hnext & _ & Htrace).
  split; [exact Hnext |].
  apply (Htrace ltac:(unfold MAX_RETRIES; lia) eq_refl [http 500]).
Defined.

(** ** C2: HTTP 429 *)

(** C2 (as stated, refuted). After a 429 on the first attempt the retry is
    preceded by two sleeps, the five seconds of the 429 branch and the two
    seconds of backoff with which the new invocation opens: seven seconds
    in all, and [5000 + 2000 * 2 ^ (k - 1)] before the [k]-th retry of a
    cycle that is rate-limited throughout. *)
Lemma C2_rate_limit_counterexample :
  trace (fetchCryptoData [http 429; http_ok [bitcoin] 0] 0 false 0 initialState)
  = [request 0 false; EvSleep 5000; EvSleep 2000; request 1 false]
  ∧ waits (trace (fetchCryptoData (repeat (http 429) 6) 0 false 0 initialState))
    = [0; 7000; 9000; 13000; 21000; 37000]
  ∧ ¬ rate_limit_waits_5s_only.
Proof.
  split; [reflexivity |]. split; [by vm_compute |].
  intros H.
  assert (Hlt : (0 < MAX_RETRIES)%nat) by (unfold MAX_RETRIES; lia).
  destruct (H 0%nat false (http 429) [http_ok [bitcoin] 0] _ 0 initialState
              (conj eq_refl eq_refl) eq_refl Hlt) as [tail Htail].
  discriminate Htail.
Qed.

(** C2 (amended). A 429 at attempt [retry < MAX_RETRIES] is retried with
    [retry + 1] on the same endpoint after a fixed sleep of five seconds
    followed by the exponential backoff of the retry it starts,
    [INITIAL_RETRY_DELAY * 2 ^ retry]; nothing else happens between the two
    requests. *)
Theorem C2_rate_limit_waits_5s_plus_backoff :
  ∀ (retry : nat) (useBackup : bool) (a : Attempt) (rest : list Attempt)
    (response : Response) (now : Z) (st : State),
    answers a response → status response = 429%nat → (retry < MAX_RETRIES)%nat →
    s_next (attempt retry useBackup a now st) = Again (retry + 1) useBackup
    ∧ ∃ tail,
        trace (fetchCryptoData (a :: rest) retry useBackup now st) =
          fst (fst (backoff retry now st)) ++
          request retry useBackup ::
          EvSleep 5000 :: EvSleep (INITIAL_RETRY_DELAY * 2 ^ Z.of_nat retry) ::
          request (retry + 1) useBackup :: tail.
Proof.
  intros retry useBackup a rest response now st Ha H429 Hlt.
  assert (Hstep : ∀ t s,
    attempt retry useBackup a t s =
      mkStep [EvSleep 5000] (t + latency a + body_latency a + 5000)
        (setRetryCount (retry + 1) s) (Again (retry + 1) useBackup)).
  { intros t s. rewrite (attempt_answers _ _ _ _ _ _ Ha). cbn zeta.
    by rewrite try_response_429. }
  split; [by rewrite Hstep |].
  assert (Hnext : s_next (attempt retry useBackup a
                            (snd (fst (backoff retry now st)))
                            (snd (backoff retry now st)))
                  = Again (retry + 1) useBackup) by (by rewrite Hstep).
  rewrite (fetchCryptoData_again _ rest _ _ _ _ _ _ Hnext). cbn zeta. cbn [trace].
  rewrite Hstep. cbn [s_events s_clock s_state].
  match goal with |- context [trace (fetchCryptoData rest ?r ?b ?t ?s)] =>
    destruct (fetchCryptoData_opens rest r b t s) as [tail ->];
    rewrite (backoff_events r t s) end.
  replace (0 <? retry + 1)%nat with true by (symmetry; apply Nat.ltb_lt; lia).
  rewrite delay_succ. exists tail. by rewrite <- app_assoc.
Qed.

(** HTTP 429 at [retry = 2] on backup: five seconds, then eight, then the
    request with [retry = 3]. *)
Lemma C2_rate_limit_witness :
  s_next (attempt 2 true (http 429) 0 initialState) = Again 3 true
  ∧ ∃ tail,
      trace (fetchCryptoData [http 429] 2 true 0 initialState) =
        EvSleep 4000 :: request 2 true :: EvSleep 5000 :: EvSleep 8000 ::
        request 3 true :: tail.
Proof.
  exact (C2_rate_limit_waits_5s_plus_backoff 2 true (http 429) [] _ 0 initialState
           (conj eq_refl eq_refl) eq_refl ltac:(unfold MAX_RETRIES; lia)).
Defined.

(** ** What an invocation can lead to *)

(** The next invocation either counts one retry more on the same endpoint,
    which requires [retry < MAX_RETRIES], or restarts at zero on backup,
    which requires having been on primary. *)
Lemma attempt_next (retry : nat) (useBackup : bool) (a : Attempt)
    (now : Z) (st : State) (retry' : nat) (useBackup' : bool) :
  s_next (attempt retry useBackup a now st) = Again retry' useBackup' →
  (retry' = (retry + 1)%nat ∧ useBackup' = useBackup ∧ (retry < MAX_RETRIES)%nat)
  ∨ (retry' = 0%nat ∧ useBackup' = true ∧ useBackup = false).
Proof.
  branches; intros ?; simplify_eq;
    repeat match goal with
           | H : (_ && _)%bool = true |- _ => apply andb_true_iff in H as [? ?]
           | H : negb _ = true |- _ => apply negb_true_iff in H
           | H : (_ <? _)%nat = true |- _ => apply Nat.ltb_lt in H
           end; subst; auto.
Qed.

(** An invocation adds no request of its own beyond the one it opens with:
    its events are sleeps. *)
Lemma attempt_events (retry : nat) (useBackup : bool) (a : Attempt)
    (now : Z) (st : State) :
  requests (s_events (attempt retry useBackup a now st)) = [].
Proof. by branches. Qed.

Lemma requests_app (tr1 tr2 : list Event) :
  requests (tr1 ++ tr2) = requests tr1 ++ requests tr2.
Proof.
  induction tr1 as [|[ms|url r b] tr1 IH]; cbn; [done | done | by rewrite IH].
Qed.

Lemma backoff_requests (retry : nat) (now : Z) (st : State) :
  requests (fst (fst (backoff retry now st))) = [].
Proof. rewrite backoff_events. by destruct (0 <? retry)%nat. Qed.

(** The requests of a cycle, invocation by invocation. *)
Lemma requests_nil (retry : nat) (useBackup : bool) (now : Z) (st : State) :
  requests (trace (fetchCryptoData [] retry useBackup now st)) = [(retry, useBackup)].
Proof.
  pose proof (backoff_requests retry now st) as Hb. cbn [fetchCryptoData].
  destruct (backoff retry now st) as [[waited now'] st']. cbn [fst snd trace] in *.
  by rewrite requests_app, Hb.
Qed.

Lemma requests_cons (a : Attempt) (rest : list Attempt) (retry : nat)
    (useBackup : bool) (now : Z) (st : State) :
  let b := backoff retry now st in
  let step := attempt retry useBackup a (snd (fst b)) (snd b) in
  requests (trace (fetchCryptoData (a :: rest) retry useBackup now st)) =
    (retry, useBackup) ::
    match s_next step with
    | Stop _ => []
    | Again retry' useBackup' =>
        requests (trace (fetchCryptoData rest retry' useBackup'
                           (s_clock step) (s_state step)))
    end.
Proof.
  cbn zeta. pose proof (backoff_requests retry now st) as Hb.
  destruct (s_next _) as [retry' useBackup'|s] eqn:Hnext.
  - rewrite (fetchCryptoData_again _ rest _ _ _ _ _ _ Hnext). cbn zeta. cbn [trace].
    rewrite !requests_app, Hb. cbn [app requests]. by rewrite attempt_events.
  - rewrite (fetchCryptoData_stop _ rest _ _ _ _ _ Hnext). cbn [trace].
    rewrite !requests_app, Hb. cbn [app requests]. by rewrite attempt_events.
Qed.

(** ** C5: the retry index is bounded and the cycle settles *)

Lemma retry_bounded (script : list Attempt) :
  ∀ (retry : nat) (useBackup : bool) (now : Z) (st : State),
    (retry ≤ MAX_RETRIES)%nat →
    Forall (λ q, (fst q ≤ MAX_RETRIES)%nat)
      (requests (trace (fetchCryptoData script retry useBackup now st))).
Proof.
  induction script as [|a rest IH]; intros retry useBackup now st Hle.
  - rewrite requests_nil. constructor; [done | constructor].
  - rewrite requests_cons. cbn zeta. constructor; [done |].
    destruct (s_next _) as [retry' useBackup'|s] eqn:Hnext; [| constructor].
    apply IH. apply attempt_next in Hnext as [(-> & _ & Hlt) | (-> & _)]; lia.
Qed.

Lemma cycle_settles (script : list Attempt) :
  ∀ (retry : nat) (useBackup : bool) (now : Z) (st : State),
    (retry ≤ MAX_RETRIES)%nat →
    (invocations_left retry useBackup ≤ length script)%nat →
    ∃ s, outcome (fetchCryptoData script retry useBackup now st) = Settled s.
Proof.
  induction script as [|a rest IH]; intros retry useBackup now st Hle Hlen.
  - unfold invocations_left in Hlen. cbn [length] in Hlen. lia.
  - destruct (s_next (attempt retry useBackup a
                        (snd (fst (backoff retry now st)))
                        (snd (backoff retry now st))))
      as [retry' useBackup'|s] eqn:Hnext.
    + rewrite (fetchCryptoData_again _ rest _ _ _ _ _ _ Hnext). cbn zeta. cbn [outcome].
      cbn [length] in Hlen. unfold invocations_left in *.
      apply attempt_next in Hnext as [(-> & -> & Hlt) | (-> & -> & ->)];
        apply IH; lia.
    + rewrite (fetchCryptoData_stop _ rest _ _ _ _ _ Hnext). by exists s.
Qed.

(** C5. In every cycle, whatever the network does, no request is made with
    a retry index above [MAX_RETRIES]; and the cycle does reach a terminal
    state: twelve invocations' worth of network behaviour (six per endpoint)
    always suffice. *)
Theorem C5_retry_index_never_exceeds_MAX_RETRIES :
  ∀ (script : list Attempt) (useBackup : bool) (now : Z) (st : State),
    Forall (λ q, (fst q ≤ MAX_RETRIES)%nat)
      (requests (trace (fetchCryptoData script 0 useBackup now st)))
    ∧ ((2 * (MAX_RETRIES + 1) ≤ length script)%nat →
       ∃ s, outcome (fetchCryptoData script 0 useBackup now st) = Settled s).
Proof.
  intros script useBackup now st. split.
  - apply retry_bounded. lia.
  - intros Hlen. apply cycle_settles; [lia |].
    unfold invocations_left. destruct useBackup; lia.
Qed.

(** Twelve server errors in a row, with a 403 at the sixth request: the
    bound of twelve invocations is reached and the cycle has settled. *)
Lemma C5_retry_index_witness :
  let script := repeat (http 500) 5 ++ [http 403] ++ repeat (http 500) 6 in
  let r := fetchCryptoData script 0 false 0 initialState in
  Forall (λ q, (fst q ≤ MAX_RETRIES)%nat) (requests (trace r))
  ∧ (∃ s, outcome r = Settled s)
  ∧ length (requests (trace r)) = 12%nat.
Proof.
  intros script r.
  destruct (C5_retry_index_never_exceeds_MAX_RETRIES script false 0 initialState)
    as [Hbound Hsettles].
  split; [exact Hbound |]. split; [| by vm_compute].
  apply Hsettles. unfold MAX_RETRIES. cbn. lia.
Defined.

(** ** C8: what a settled cycle leaves in the component state *)

Lemma backoff_keeps_data (retry : nat) (now : Z) (st : State) :
  cryptocurrencies (snd (backoff retry now st)) = cryptocurrencies st
  ∧ lastUpdateTime (snd (backoff retry now st)) = lastUpdateTime st.
Proof. unfold backoff. by destruct (0 <? retry)%nat. Qed.

(** One invocation: a success writes the whole record; anything else
    leaves the dataset and its timestamp alone. *)
Lemma attempt_state (retry : nat) (useBackup : bool) (a : Attempt)
    (now : Z) (st : State) :
  let step := attempt retry useBackup a now st in
  match s_next step with
  | Stop (Succeeded data useBackup') =>
      useBackup' = useBackup ∧ data ≠ []
      ∧ s_state step = mkState data false None 0 (Some (s_clock step)) useBackup
      ∧ ∃ response, reply a = Resolves response ∧ json response = inr (JArray data)
  | Stop (Failed msg) =>
      cryptocurrencies (s_state step) = cryptocurrencies st
      ∧ lastUpdateTime (s_state step) = lastUpdateTime st
      ∧ error (s_state step) = Some msg
  | Again _ _ =>
      cryptocurrencies (s_state step) = cryptocurrencies st
      ∧ lastUpdateTime (s_state step) = lastUpdateTime st
  end.
Proof. branches; eauto 6. Qed.

Lemma requests_nonempty (script : list Attempt) (retry : nat) (useBackup : bool)
    (now : Z) (st : State) :
  requests (trace (fetchCryptoData script retry useBackup now st)) ≠ [].
Proof.
  destruct script; [by rewrite requests_nil | by rewrite requests_cons].
Qed.

Lemma cycle_state (script : list Attempt) :
  ∀ (retry : nat) (useBackup : bool) (now : Z) (st : State),
    let r := fetchCryptoData script retry useBackup now st in
    match outcome r with
    | Settled (Succeeded data useBackup') =>
        state r = mkState data false None 0 (Some (clock r)) useBackup'
        ∧ data ≠ [] ∧ ended_on r = Some useBackup'
        ∧ ∃ a response, a ∈ script ∧ reply a = Resolves response
                        ∧ json response = inr (JArray data)
    | Settled (Failed msg) =>
        cryptocurrencies (state r) = cryptocurrencies st
        ∧ lastUpdateTime (state r) = lastUpdateTime st
        ∧ error (state r) = Some msg
    | AwaitingResponse =>
        cryptocurrencies (state r) = cryptocurrencies st
        ∧ lastUpdateTime (state r) = lastUpdateTime st
    end.
Proof.
  induction script as [|a rest IH]; intros retry useBackup now st r.
  - subst r. pose proof (backoff_keeps_data retry now st) as Hb.
    cbn [fetchCryptoData]. destruct (backoff retry now st) as [[waited now'] st'].
    exact Hb.
  - pose proof (backoff_keeps_data retry now st) as [Hb1 Hb2].
    pose proof (attempt_state retry useBackup a
                  (snd (fst (backoff retry now st)))
                  (snd (backoff retry now st))) as Hstep.
    cbn zeta in Hstep. unfold ended_on in *. subst r.
    rewrite requests_cons. cbn zeta.
    destruct (s_next _) as [retry' useBackup'|s] eqn:Hnext.
    + rewrite (fetchCryptoData_again _ rest _ _ _ _ _ _ Hnext). cbn zeta.
      cbn [outcome state clock].
      match goal with |- context [fetchCryptoData rest ?r ?b ?t ?s] =>
        specialize (IH r b t s); cbn zeta in IH;
        pose proof (requests_nonempty rest r b t s) as Hne end.
      destruct Hstep as [Hs1 Hs2].
      destruct (outcome _) as [[data ub|msg]|].
      * destruct IH as (? & ? & Hlast & a' & response & ? & ? & ?).
        repeat split; [done | done | | ].
        -- rewrite last_cons. by destruct (last _).
        -- exists a', response. repeat split; [by right | done | done].
      * destruct IH as (-> & -> & ?). by rewrite Hs1, Hs2, Hb1, Hb2.
      * destruct IH as (-> & ->). by rewrite Hs1, Hs2, Hb1, Hb2.
    + rewrite (fetchCryptoData_stop _ rest _ _ _ _ _ Hnext).
      cbn [outcome state clock]. destruct s as [data ub|msg].
      * destruct Hstep as (-> & ? & ? & response & ? & ?).
        repeat split; [done | done |].
        exists a, response. repeat split; [by left | done | done].
      * destruct Hstep as (-> & -> & ?). by rewrite Hb1, Hb2.
Qed.

(** C8. A cycle that settles failed leaves the dataset, and the timestamp
    of its last update, exactly as it found them, and leaves its terminal
    message as the visible error; in particular the dataset stored by an
    earlier successful cycle is still there.  A cycle that settles
    succeeded stores the array of the reply it received in place of the
    dataset, clears the error, and records the time of settlement and the
    endpoint of its last request. *)
Theorem C8_failed_cycle_keeps_dataset_succeeded_cycle_replaces_it :
  ∀ (script : list Attempt) (retry : nat) (useBackup : bool) (now : Z) (st : State),
    let r := fetchCryptoData script retry useBackup now st in
    (∀ msg, outcome r = Settled (Failed msg) →
       cryptocurrencies (state r) = cryptocurrencies st
       ∧ lastUpdateTime (state r) = lastUpdateTime st
       ∧ error (state r) = Some msg)
    ∧ (∀ data endpoint, outcome r = Settled (Succeeded data endpoint) →
         cryptocurrencies (state r) = data
         ∧ error (state r) = None
         ∧ lastUpdateTime (state r) = Some (clock r)
         ∧ isUsingBackupAPI (state r) = endpoint
         ∧ ended_on r = Some endpoint
         ∧ data ≠ []
         ∧ (∃ a response, a ∈ script ∧ reply a = Resolves response
                          ∧ json response = inr (JArray data))
         ∧ ∀ script' retry' useBackup' now' msg,
             let r' := fetchCryptoData script' retry' useBackup' now' (state r) in
             outcome r' = Settled (Failed msg) →
             cryptocurrencies (state r') = data ∧ error (state r') = Some msg).
Proof.
  intros script retry useBackup now st r.
  pose proof (cycle_state script retry useBackup now st) as H. cbn zeta in H.
  fold r in H. split.
  - intros msg Hout. by rewrite Hout in H.
  - intros data endpoint Hout. rewrite Hout in H.
    destruct H as (Hst & Hne & Hend & Hfrom).
    do 7 (split; [by rewrite ?Hst |]).
    intros script' retry' useBackup' now' msg r' Hout'.
    pose proof (cycle_state script' retry' useBackup' now' (state r)) as H'.
    cbn zeta in H'. fold r' in H'. rewrite Hout' in H'.
    destruct H' as (-> & _ & ->). by rewrite Hst.
Qed.

(** A successful cycle followed, a minute later, by one that meets six
    server errors: the entries of the first are still on display, next to
    the error of the second. *)
Lemma C8_failed_cycle_witness :
  let r := fetchCryptoData [http_ok [bitcoin] 50] 0 false 0 initialState in
  let r' := fetchCryptoData (repeat (http 500) 6) 0 false 60150 (state r) in
  (cryptocurrencies (state r) = [bitcoin] ∧ error (state r) = None
   ∧ lastUpdateTime (state r) = Some 150 ∧ isUsingBackupAPI (state r) = false)
  ∧ cryptocurrencies (state r') = [bitcoin]
  ∧ error (state r') = Some "HTTP error! status: 500".
Proof.
  intros r r'.
  destruct (C8_failed_cycle_keeps_dataset_succeeded_cycle_replaces_it
              [http_ok [bitcoin] 50] 0 false 0 initialState) as [_ Hok].
  destruct (Hok [bitcoin] false eq_refl)
    as (Hdata & Herr & Htime & Hend & _ & _ & _ & Hlater).
  split; [by repeat split |].
  exact (Hlater (repeat (http 500) 6) 0%nat false 60150
           "HTTP error! status: 500" eq_refl).
Defined.

(** ** C6: the endpoint within a cycle and from one cycle to the next *)

Lemma on_backup_stays (script : list Attempt) :
  ∀ (retry : nat) (now : Z) (st : State),
    Forall (λ q, snd q = true)
      (requests (trace (fetchCryptoData script retry true now st))).
Proof.
  induction script as [|a rest IH]; intros retry now st.
  - rewrite requests_nil. by repeat constructor.
  - rewrite requests_cons. cbn zeta. constructor; [done |].
    destruct (s_next _) as [retry' useBackup'|s] eqn:Hnext; [| constructor].
    apply attempt_next in Hnext as [(_ & -> & _) | (_ & -> & _)]; apply IH.
Qed.

Lemma all_true_replicate (l : list (nat * bool)) :
  Forall (λ q, snd q = true) l → map snd l = replicate (length l) true.
Proof. induction 1 as [|[n b] l Hb _ IH]; cbn in *; [done | by rewrite Hb, IH]. Qed.

(** Within a cycle the endpoints of the successive requests are some
    number of primaries followed by some number of backups. *)
Lemma endpoint_never_returns (script : list Attempt) :
  ∀ (retry : nat) (useBackup : bool) (now : Z) (st : State),
    ∃ n m, map snd (requests (trace (fetchCryptoData script retry useBackup now st)))
           = replicate n false ++ replicate m true.
Proof.
  induction script as [|a rest IH]; intros retry useBackup now st.
  - rewrite requests_nil. destruct useBackup; [by exists 0%nat, 1%nat | by exists 1%nat, 0%nat].
  - destruct useBackup.
    + exists 0%nat. eexists. cbn [replicate app].
      apply all_true_replicate, on_backup_stays.
    + rewrite requests_cons. cbn zeta.
      destruct (s_next _) as [retry' useBackup'|s]; [| by exists 1%nat, 0%nat].
      match goal with |- context [fetchCryptoData rest ?r ?b ?t ?s] =>
        destruct (IH r b t s) as (n & m & Heq) end.
      exists (S n), m. cbn [map snd replicate app]. by rewrite Heq.
Qed.

(** The endpoint a cycle starts on is the one it is called with. *)
Lemma started_on_call (script : list Attempt) (retry : nat) (useBackup : bool)
    (now : Z) (st : State) :
  started_on (fetchCryptoData script retry useBackup now st) = Some useBackup.
Proof.
  unfold started_on. destruct script; [by rewrite requests_nil | by rewrite requests_cons].
Qed.

(** The interval timer's cycles start on the endpoint the effect closed
    over; the awaited cycle of any run of the effect starts on primary. *)
Lemma interval_cycle_starts_on_captured (e : Effect) (k : nat) (r : Run) :
  cycle e (S k) = Some r → started_on r = Some (dep_isUsingBackupAPI (deps e)).
Proof.
  unfold cycle. destruct (cycle_start e (S k)); [| done].
  intros [= <-]. apply started_on_call.
Qed.

Lemma first_cycle_starts_on_primary (e : Effect) :
  started_on (first_cycle e) = Some false.
Proof. apply started_on_call. Qed.

(** C6. Within a cycle the requests go to primary some number of times and
    then to backup, never back.  From one cycle to the next the endpoint is
    not carried over: when the awaited cycle of a run of the effect is
    refused on primary and served by backup, it ends on backup and records
    [isUsingBackupAPI = true], yet the next cycle that run starts, from its
    timer, goes to primary; and the run of the effect that the change of
    [isUsingBackupAPI] sets off begins, like every run, with a cycle on
    primary. *)
Theorem C6_next_cycle_starts_on_primary_after_backup :
  (∀ (script : list Attempt) (retry : nat) (useBackup : bool) (now : Z) (st : State),
     ∃ n m, map snd (requests (trace (fetchCryptoData script retry useBackup now st)))
            = replicate n false ++ replicate m true)
  ∧ (outcome (first_cycle failover) = Settled (Succeeded [bitcoin] true)
     ∧ ended_on (first_cycle failover) = Some true
     ∧ isUsingBackupAPI (state (first_cycle failover)) = true)
  ∧ (∃ r, cycle failover 1 = Some r ∧ started_on r = Some false)
  ∧ (rerun (deps failover) (state (first_cycle failover))
       = Some {| dep_error := None; dep_isUsingBackupAPI := true |}
     ∧ ∀ e : Effect, started_on (first_cycle e) = Some false)
  ∧ ¬ starts_where_previous_ended failover.
Proof.
  split; [intros; apply endpoint_never_returns |].
  split; [by vm_compute |].
  split; [eexists; split; [reflexivity | by vm_compute] |].
  split; [split; [by vm_compute | apply first_cycle_starts_on_primary] |].
  intros H.
  specialize (H 0%nat _ _ true eq_refl eq_refl).
  assert (Hend : ended_on (first_cycle failover) = Some true) by (by vm_compute).
  specialize (H Hend). rewrite started_on_call in H. discriminate H.
Qed.

(** ** C4: when cycles start *)

(** The routine writes the component state but never reads it: the course
    of an invocation, and so of a cycle, is the same from any state. *)
Lemma catch_block_control (retry : nat) (useBackup : bool) (e : Exn)
    (now : Z) (st st' : State) :
  s_events (catch_block retry useBackup e now st)
    = s_events (catch_block retry useBackup e now st')
  ∧ s_clock (catch_block retry useBackup e now st)
    = s_clock (catch_block retry useBackup e now st')
  ∧ s_next (catch_block retry useBackup e now st)
    = s_next (catch_block retry useBackup e now st').
Proof.
  unfold catch_block. destruct (_ && _ && _)%bool; [done |].
  by destruct (_ && negb _)%bool.
Qed.

Lemma try_response_control (retry : nat) (useBackup : bool) (response : Response)
    (now : Z) (st st' : State) :
  match try_response retry useBackup response now st,
        try_response retry useBackup response now st' with
  | inl step, inl step' =>
      s_events step = s_events step' ∧ s_clock step = s_clock step'
      ∧ s_next step = s_next step'
  | inr e, inr e' => e = e'
  | _, _ => False
  end.
Proof.
  unfold try_response. destruct (negb (ok response)).
  - destruct (status response =? 429)%nat;
      [by destruct (retry <? MAX_RETRIES)%nat |].
    destruct (status response =? 403)%nat; [by destruct (negb useBackup) |].
    by destruct (status response =? 404)%nat.
  - by destruct (json response) as [e|[|[|c l]]].
Qed.

Lemma attempt_control (retry : nat) (useBackup : bool) (a : Attempt)
    (now : Z) (st st' : State) :
  s_events (attempt retry useBackup a now st) = s_events (attempt retry useBackup a now st')
  ∧ s_clock (attempt retry useBackup a now st) = s_clock (attempt retry useBackup a now st')
  ∧ s_next (attempt retry useBackup a now st) = s_next (attempt retry useBackup a now st').
Proof.
  unfold attempt. destruct (fetchWithTimeout a 20000) as [[response|e] elapsed].
  - pose proof (try_response_control retry useBackup response
                  (now + elapsed + body_latency a) st st') as H.
    destruct (try_response _ _ _ _ st) as [step|e],
             (try_response _ _ _ _ st') as [step'|e']; try done.
    subst e'. apply catch_block_control.
  - apply catch_block_control.
Qed.

Lemma backoff_control (retry : nat) (now : Z) (st st' : State) :
  fst (backoff retry now st) = fst (backoff retry now st').
Proof. unfold backoff. by destruct (0 <? retry)%nat. Qed.

Lemma cycle_control (script : list Attempt) :
  ∀ (retry : nat) (useBackup : bool) (now : Z) (st st' : State),
    trace (fetchCryptoData script retry useBackup now st)
      = trace (fetchCryptoData script retry useBackup now st')
    ∧ clock (fetchCryptoData script retry useBackup now st)
      = clock (fetchCryptoData script retry useBackup now st')
    ∧ outcome (fetchCryptoData script retry useBackup now st)
      = outcome (fetchCryptoData script retry useBackup now st').
Proof.
  induction script as [|a rest IH]; intros retry useBackup now st st';
    pose proof (backoff_control retry now st st') as Hb;
    cbn [fetchCryptoData];
    destruct (backoff retry now st) as [[waited t] s],
             (backoff retry now st') as [[waited' t'] s'];
    cbn [fst] in Hb; injection Hb as <- <-; [done |].
  destruct (attempt_control retry useBackup a t s s') as (He & Hc & Hn).
  rewrite <- He, <- Hc, <- Hn.
  destruct (s_next (attempt retry useBackup a t s)) as [retry' useBackup'|?]; [| done].
  cbn [trace clock outcome].
  destruct (IH retry' useBackup' (s_clock (attempt retry useBackup a t s))
              (s_state (attempt retry useBackup a t s))
              (s_state (attempt retry useBackup a t s'))) as (-> & -> & ->).
  done.
Qed.

(** C4 (as stated, refuted).  With every cycle served at its first request
    and over 250 ms after it starts, the third cycle starts 59.75 s after
    the second was over, not 60 s; and when the second cycle takes 70 s to
    read its body, the third starts while the second is still running. *)
Lemma C4_poll_counterexample :
  (cycle_start (steady (λ _, 150)) 2 = Some 120250
   ∧ clock <$> cycle (steady (λ _, 150)) 1 = Some 60500
   ∧ ¬ timed_from_completion (steady (λ _, 150)))
  ∧ (let slow := steady (λ k, if (k =? 1)%nat then 70000 else 150) in
     cycle_start slow 1 = Some 60250
     ∧ cycle_start slow 2 = Some 120250
     ∧ clock <$> cycle slow 1 = Some 130350
     ∧ ¬ never_overlaps slow).
Proof.
  split.
  - split; [by vm_compute |]. split; [by vm_compute |].
    intros H. specialize (H 1%nat _ _ eq_refl eq_refl).
    vm_compute in H. discriminate H.
  - intros slow. split; [by vm_compute |]. split; [by vm_compute |].
    split; [by vm_compute |].
    intros H. destruct (H 1%nat _ _ eq_refl eq_refl) as [_ Hle].
    vm_compute in Hle. by apply Hle.
Qed.

(** C4 (amended).  In one run of the effect, for as long as its timer is
    not cleared: the timer is set only once the awaited first cycle has
    settled, and only if the [error] that run closed over is falsy, so the
    first timed cycle starts exactly one interval after that settlement; from then on each cycle starts exactly one interval
    after the previous one started; and none of these starting times
    depends on how the timed cycles fare, nor on the state any cycle finds:
    they are fixed ticks counted from the setting of the timer. *)
Theorem C4_poll_timer_ticks_from_first_settlement :
  ∀ e : Effect,
    (∀ armed, armed_at e = Some armed →
       (∃ s, outcome (first_cycle e) = Settled s)
       ∧ no_error (deps e) = true
       ∧ armed = clock (first_cycle e)
       ∧ cycle_start e 1 = Some (clock (first_cycle e) + POLL_INTERVAL))
    ∧ (∀ k t, cycle_start e (S k) = Some t →
         cycle_start e (S (S k)) = Some (t + POLL_INTERVAL))
    ∧ (∀ e' : Effect,
         deps e' = deps e → begun_at e' = begun_at e →
         scripts e' 0%nat = scripts e 0%nat →
         ∀ k, cycle_start e' k = cycle_start e k).
Proof.
  intros e. split; [| split].
  - intros armed Harmed. cbn [cycle_start]. rewrite Harmed.
    unfold armed_at in Harmed.
    destruct (outcome (first_cycle e)) as [s|]; [| done].
    destruct (no_error (deps e)); [| done]. injection Harmed as <-.
    split; [by exists s |]. split; [done |]. split; [done |].
    unfold fires_at; f_equal; lia.
  - intros k t. cbn [cycle_start]. destruct (armed_at e) as [armed|]; [| done].
    intros [= <-]. unfold fires_at; f_equal; lia.
  - intros e' Hdeps Hbegun Hscript k.
    assert (Harmed : armed_at e' = armed_at e).
    { unfold armed_at, first_cycle. rewrite Hdeps, Hbegun, Hscript.
      destruct (cycle_control (scripts e 0%nat) (fst first_call) (snd first_call)
                  (begun_at e) (seen e' 0%nat) (seen e 0%nat)) as (_ & -> & ->).
      done. }
    destruct k; cbn [cycle_start]; [by rewrite Hbegun | by rewrite Harmed].
Qed.

(** The ticks of a run whose second cycle is slow are those of a run whose
    cycles are all quick. *)
Lemma C4_poll_timer_witness :
  let e := steady (λ k, if (k =? 1)%nat then 70000 else 150) in
  cycle_start e 1 = Some (250 + POLL_INTERVAL)
  ∧ cycle_start e 2 = Some (60250 + POLL_INTERVAL)
  ∧ cycle_start (steady (λ _, 150)) 2 = cycle_start e 2.
Proof.
  intros e.
  destruct (C4_poll_timer_ticks_from_first_settlement e) as (Hfirst & Htick & Hsame).
  destruct (Hfirst 250 eq_refl) as (_ & _ & _ & H1).
  split; [exact H1 |]. split.
  - exact (Htick 0%nat 60250 eq_refl).
  - exact (Hsame (steady (λ _, 150)) eq_refl eq_refl eq_refl 2%nat).
Defined.

(* ===================================================================== *)
(** * Part III. Further properties of the page                            *)
(* ===================================================================== *)

(** ** Timeouts *)

Lemma fetchWithTimeout_unanswered (a : Attempt) :
  unanswered a → fetchWithTimeout a 20000 = (Rejects AbortError, 20000).
Proof.
  unfold unanswered, fetchWithTimeout. intros H.
  apply Z.ltb_ge in H. by rewrite H.
Qed.

(** The routine on a request that is timed out. *)
Lemma attempt_unanswered (retry : nat) (useBackup : bool) (a : Attempt)
    (now : Z) (st : State) :
  unanswered a →
  attempt retry useBackup a now st =
    if (negb useBackup && (retry =? 0)%nat)%bool
    then mkStep [] (now + 20000) st (Again 0 true)
    else
      let st' := setLoading false
                   (setError (Some "Request timed out. Retrying...") st) in
      if (retry <? MAX_RETRIES)%nat
      then mkStep [] (now + 20000) (setRetryCount (retry + 1) st')
             (Again (retry + 1) useBackup)
      else mkStep [] (now + 20000) st'
             (Stop (Failed "Request timed out. Retrying...")).
Proof.
  intros Hun. unfold attempt.
  rewrite (fetchWithTimeout_unanswered a Hun). unfold catch_block, AbortError.
  cbn [is_Error exn_name exn_message].
  change (String.eqb "AbortError" "AbortError") with true. cbn [andb].
  destruct (negb useBackup && (retry =? 0)%nat)%bool; [done |].
  change (no_retry "Request timed out. Retrying...") with false.
  cbn [negb]. by rewrite andb_true_r.
Qed.

(** X1. A request that is still unanswered after 20 s is aborted.  On the
    first attempt on primary the routine then moves to backup at once, with
    [retry] still 0, and writes nothing: no error is shown and
    [isUsingBackupAPI] is not raised.  Anywhere else the timeout is shown
    as "Request timed out. Retrying..." and retried with [retry + 1] on the
    same endpoint, until at [retry = MAX_RETRIES] the cycle fails with that
    very message.  Whatever the network would have replied is ignored. *)
Theorem X1_timeout_rule :
  ∀ (retry : nat) (useBackup : bool) (a : Attempt) (now : Z) (st : State),
    unanswered a →
    attempt retry useBackup a now st =
      if (negb useBackup && (retry =? 0)%nat)%bool
      then mkStep [] (now + 20000) st (Again 0 true)
      else
        let st' := setLoading false
                     (setError (Some "Request timed out. Retrying...") st) in
        if (retry <? MAX_RETRIES)%nat
        then mkStep [] (now + 20000) (setRetryCount (retry + 1) st')
               (Again (retry + 1) useBackup)
        else mkStep [] (now + 20000) st'
               (Stop (Failed "Request timed out. Retrying...")).
Proof. intros. by apply attempt_unanswered. Qed.

(** A reply that would come after 25 s, asked for on backup at [retry = 5]. *)
Lemma X1_timeout_witness :
  let late := {| reply := Resolves (mkResponse 200 None (inr (JArray [bitcoin])));
                 latency := 25000; body_latency := 0 |} in
  s_next (attempt 5 true late 0 initialState)
  = Stop (Failed "Request timed out. Retrying...")
  ∧ attempt 0 false late 0 initialState = mkStep [] 20000 initialState (Again 0 true).
Proof.
  intros late. split.
  - rewrite (X1_timeout_rule 5 true late 0 initialState); [done |].
    unfold unanswered. cbn. lia.
  - rewrite (X1_timeout_rule 0 false late 0 initialState); [done |].
    unfold unanswered. cbn. lia.
Defined.

Lemma backoff_clock (retry : nat) (now : Z) (st : State) :
  snd (fst (backoff retry now st)) = now + delay retry.
Proof.
  unfold backoff, delay. destruct (0 <? retry)%nat; cbn [fst snd]; lia.
Qed.

Lemma backoff_keeps_flags (retry : nat) (now : Z) (st : State) :
  isUsingBackupAPI (snd (backoff retry now st)) = isUsingBackupAPI st
  ∧ retryCount (snd (backoff retry now st)) = retryCount st
  ∧ loading (snd (backoff retry now st)) = loading st.
Proof. unfold backoff. by destruct (0 <? retry)%nat. Qed.

(** A server that never answers, met on backup from [retry] on. *)
Lemma silent_backup (n : nat) :
  ∀ (script : list Attempt) (retry : nat) (now : Z) (st : State),
    (retry + n = MAX_RETRIES)%nat → Forall unanswered script →
    (n < length script)%nat →
    let r := fetchCryptoData script retry true now st in
    outcome r = Settled (Failed "Request timed out. Retrying...")
    ∧ requests (trace r) = map (λ k, (k, true)) (seq retry (S n))
    ∧ clock r = now + budget_from 20000 0 n retry
    ∧ isUsingBackupAPI (state r) = isUsingBackupAPI st
    ∧ loading (state r) = false
    ∧ retryCount (state r) = match n with O => retryCount st | S _ => MAX_RETRIES end.
Proof.
  induction n as [|n IH]; intros script retry now st Hn Hun Hlen;
    (destruct script as [|a rest]; [cbn in Hlen; lia |]);
    apply Forall_cons in Hun as [Ha Hrest];
    pose proof (backoff_clock retry now st) as Hclock;
    pose proof (backoff_keeps_flags retry now st) as (Hflag & Hcount & _);
    pose proof (attempt_unanswered retry true a (snd (fst (backoff retry now st)))
                  (snd (backoff retry now st)) Ha) as Hstep;
    cbn [negb andb] in Hstep; cbn zeta in Hstep.
  - replace (retry <? MAX_RETRIES)%nat with false in Hstep
      by (symmetry; apply Nat.ltb_ge; lia).
    assert (Hnext : s_next (attempt retry true a (snd (fst (backoff retry now st)))
                              (snd (backoff retry now st)))
                    = Stop (Failed "Request timed out. Retrying..."))
      by (by rewrite Hstep).
    cbn zeta. rewrite requests_cons. cbn zeta.
    rewrite (fetchCryptoData_stop _ rest _ _ _ _ _ Hnext), Hnext.
    cbn [outcome clock state]. rewrite Hstep. cbn [s_clock s_state].
    repeat split; try done.
    cbn [budget_from]. lia.
  - replace (retry <? MAX_RETRIES)%nat with true in Hstep
      by (symmetry; apply Nat.ltb_lt; lia).
    assert (Hnext : s_next (attempt retry true a (snd (fst (backoff retry now st)))
                              (snd (backoff retry now st)))
                    = Again (retry + 1) true)
      by (by rewrite Hstep).
    cbn zeta. rewrite requests_cons. cbn zeta.
    rewrite (fetchCryptoData_again _ rest _ _ _ _ _ _ Hnext), Hnext. cbn zeta.
    cbn [outcome clock state]. rewrite Hstep. cbn [s_clock s_state].
    match goal with |- context [fetchCryptoData rest ?r true ?t ?s] =>
      destruct (IH rest r t s) as (Hout & Hreq & Hclk & Hfl & Hld & Hcnt);
        [lia | done | cbn in Hlen; lia |] end.
    rewrite Hout, Hreq, Hclk, Hfl, Hld, Hcnt.
    replace (retry + 1)%nat with (S retry) by lia.
    repeat split; try done.
    + cbn [budget_from]. lia.
    + destruct n; [| done]. cbn. lia.
Qed.

(** X2. When no request is ever answered, a cycle begun on primary makes
    one request there and six on backup, gives up 202 s after it began
    (seven cut-offs of 20 s and 62 s of backoff) with the message "Request
    timed out. Retrying...", and leaves [isUsingBackupAPI] as it was although
    all but the first request went to backup. *)
Theorem X2_unresponsive_server :
  ∀ (script : list Attempt) (now : Z) (st : State),
    Forall unanswered script → (7 ≤ length script)%nat →
    let r := fetchCryptoData script 0 false now st in
    outcome r = Settled (Failed "Request timed out. Retrying...")
    ∧ requests (trace r)
      = [(0, false); (0, true); (1, true); (2, true); (3, true); (4, true); (5, true)]%nat
    ∧ clock r = now + 202000
    ∧ error (state r) = Some "Request timed out. Retrying..."
    ∧ loading (state r) = false
    ∧ retryCount (state r) = 5%nat
    ∧ isUsingBackupAPI (state r) = isUsingBackupAPI st
    ∧ cryptocurrencies (state r) = cryptocurrencies st.
Proof.
  intros script now st Hun Hlen r.
  destruct script as [|a rest]; [cbn in Hlen; lia |].
  apply Forall_cons in Hun as [Ha Hrest].
  pose proof (attempt_unanswered 0 false a now st Ha) as Hstep.
  cbn [negb andb Nat.eqb] in Hstep.
  assert (Hnext : s_next (attempt 0 false a (snd (fst (backoff 0 now st)))
                            (snd (backoff 0 now st))) = Again 0 true)
    by (cbn [backoff Nat.ltb Nat.leb fst snd]; by rewrite Hstep).
  destruct (silent_backup 5 rest 0 (now + 20000) st eq_refl Hrest)
    as (Hout & Hreq & Hclk & Hfl & Hld & Hcnt); [cbn in Hlen; lia |].
  pose proof (cycle_state (a :: rest) 0 false now st) as Hstate. cbn zeta in Hstate.
  assert (Hr : outcome r = Settled (Failed "Request timed out. Retrying...")
               ∧ requests (trace r) = (0%nat, false) :: map (λ k, (k, true)) (seq 0 6)
               ∧ clock r = now + 20000 + budget_from 20000 0 5 0
               ∧ isUsingBackupAPI (state r) = isUsingBackupAPI st
               ∧ loading (state r) = false
               ∧ retryCount (state r) = MAX_RETRIES).
  { subst r. rewrite requests_cons. cbn zeta.
    rewrite (fetchCryptoData_again _ rest _ _ _ _ _ _ Hnext), Hnext. cbn zeta.
    cbn [outcome clock state]. cbn [backoff Nat.ltb Nat.leb fst snd].
    rewrite Hstep. cbn [s_clock s_state]. by rewrite Hout, Hreq, Hclk, Hfl, Hld, Hcnt. }
  destruct Hr as (Ho & Hq & Hc & Hf & Hl & Hn).
  fold r in Hstate. rewrite Ho in Hstate. destruct Hstate as (Hdata & _ & Herr).
  repeat split; try done.
  rewrite Hc. assert (budget_from 20000 0 5 0 = 182000) as -> by (by vm_compute). lia.
Qed.

Lemma X2_unresponsive_server_witness :
  let silent := {| reply := Rejects (Error "unused"); latency := 30000; body_latency := 0 |} in
  let r := fetchCryptoData (repeat silent 7) 0 false 1000 initialState in
  outcome r = Settled (Failed "Request timed out. Retrying...")
  ∧ clock r = 203000.
Proof.
  intros silent r.
  assert (Hun : Forall unanswered (repeat silent 7))
    by (repeat constructor; unfold unanswered; cbn; lia).
  destruct (X2_unresponsive_server (repeat silent 7) 1000 initialState Hun
              ltac:(cbn; lia)) as (Hout & _ & Hclk & _).
  split; [exact Hout | exact Hclk].
Defined.

(** ** HTTP 403 *)

(** X3. A 403 on primary moves the cycle to backup at once: [retry] is
    reset to 0, [isUsingBackupAPI] is raised, nothing is slept and no error
    is shown.  A 403 on backup ends the cycle with the access-denied
    message at any [retry], however many retries are left. *)
Theorem X3_forbidden_rule :
  ∀ (retry : nat) (useBackup : bool) (a : Attempt) (response : Response)
    (now : Z) (st : State),
    answers a response → status response = 403%nat →
    attempt retry useBackup a now st =
      let t := now + latency a + body_latency a in
      if useBackup
      then mkStep [] t
             (setLoading false
                (setError (Some "Access denied. Please check your API permissions.") st))
             (Stop (Failed "Access denied. Please check your API permissions."))
      else mkStep [] t (setIsUsingBackupAPI true st) (Again 0 true).
Proof.
  intros retry useBackup a response now st Ha H403.
  rewrite (attempt_answers _ _ _ _ _ _ Ha). cbn zeta.
  unfold try_response, ok. rewrite H403. cbn [Nat.leb Nat.eqb andb negb].
  destruct useBackup; cbn [negb]; [| done].
  rewrite catch_block_Error. cbn zeta.
  change (no_retry "Access denied. Please check your API permissions.") with true.
  cbn [negb]. by rewrite andb_false_r.
Qed.

Lemma X3_forbidden_witness :
  s_next (attempt 0 true (http 403) 0 initialState)
  = Stop (Failed "Access denied. Please check your API permissions.")
  ∧ s_next (attempt 3 false (http 403) 0 initialState) = Again 0 true.
Proof.
  split.
  - by rewrite (X3_forbidden_rule 0 true (http 403) _ 0 initialState
                  (conj eq_refl eq_refl) eq_refl).
  - by rewrite (X3_forbidden_rule 3 false (http 403) _ 0 initialState
                  (conj eq_refl eq_refl) eq_refl).
Defined.

(** ** Why a cycle gives up *)

Lemma attempt_gives_up (retry : nat) (useBackup : bool) (a : Attempt)
    (now : Z) (st : State) (msg : string) :
  s_next (attempt retry useBackup a now st) = Stop (Failed msg) →
  no_retry msg = true ∨ (MAX_RETRIES ≤ retry)%nat.
Proof.
  branches; intros ?; simplify_eq;
    repeat match goal with
           | H : (_ && _)%bool = false |- _ => apply andb_false_iff in H as [H | H]
           | H : negb _ = false |- _ => apply negb_false_iff in H
           | H : (_ <? _)%nat = false |- _ => apply Nat.ltb_ge in H
           end; auto.
Qed.

Lemma last_request_stop (a : Attempt) (rest : list Attempt) (retry : nat)
    (useBackup : bool) (now : Z) (st : State) (s : Settlement) :
  s_next (attempt retry useBackup a (snd (fst (backoff retry now st)))
            (snd (backoff retry now st))) = Stop s →
  last (requests (trace (fetchCryptoData (a :: rest) retry useBackup now st)))
  = Some (retry, useBackup).
Proof. intros Hnext. rewrite requests_cons. cbn zeta. by rewrite Hnext. Qed.

Lemma last_request_again (a : Attempt) (rest : list Attempt) (retry : nat)
    (useBackup : bool) (now : Z) (st : State) (retry' : nat) (useBackup' : bool) :
  let step := attempt retry useBackup a (snd (fst (backoff retry now st)))
                (snd (backoff retry now st)) in
  s_next step = Again retry' useBackup' →
  last (requests (trace (fetchCryptoData (a :: rest) retry useBackup now st)))
  = last (requests (trace (fetchCryptoData rest retry' useBackup'
                             (s_clock step) (s_state step)))).
Proof.
  cbn zeta. intros Hnext. rewrite requests_cons. cbn zeta. rewrite Hnext.
  rewrite last_cons.
  match goal with |- context [fetchCryptoData rest ?r ?b ?t ?s] =>
    pose proof (requests_nonempty rest r b t s) as Hne end.
  destruct (last _) eqn:Hlast; [done |]. by apply last_None in Hlast.
Qed.

Lemma gives_up_at_limit_or_listed (script : list Attempt) :
  ∀ (retry : nat) (useBackup : bool) (now : Z) (st : State) (msg : string),
    outcome (fetchCryptoData script retry useBackup now st) = Settled (Failed msg) →
    no_retry msg = true
    ∨ ∃ n endpoint,
        last (requests (trace (fetchCryptoData script retry useBackup now st)))
        = Some (n, endpoint) ∧ (MAX_RETRIES ≤ n)%nat.
Proof.
  induction script as [|a rest IH]; intros retry useBackup now st msg.
  - cbn [fetchCryptoData]. by destruct (backoff retry now st) as [[? ?] ?].
  - destruct (s_next (attempt retry useBackup a (snd (fst (backoff retry now st)))
                        (snd (backoff retry now st))))
      as [retry' useBackup'|s] eqn:Hnext.
    + rewrite (last_request_again _ rest _ _ _ _ _ _ Hnext).
      rewrite (fetchCryptoData_again _ rest _ _ _ _ _ _ Hnext). cbn zeta.
      cbn [outcome]. apply IH.
    + rewrite (last_request_stop _ rest _ _ _ _ _ Hnext).
      rewrite (fetchCryptoData_stop _ rest _ _ _ _ _ Hnext). cbn [outcome].
      intros [= ->]. apply attempt_gives_up in Hnext as [? | ?]; [by left |].
      right. by exists retry, useBackup.
Qed.

(** X4. A cycle gives up for one of two reasons only: its last request was
    made with [retry = MAX_RETRIES], or the message it fails with contains
    an entry of [noRetryErrors].  Below the limit no other failure ends a
    cycle. *)
Theorem X4_gives_up_only_at_limit_or_on_listed_message :
  ∀ (script : list Attempt) (useBackup : bool) (now : Z) (st : State) (msg : string),
    outcome (fetchCryptoData script 0 useBackup now st) = Settled (Failed msg) →
    no_retry msg = true
    ∨ ∃ endpoint,
        last (requests (trace (fetchCryptoData script 0 useBackup now st)))
        = Some (MAX_RETRIES, endpoint).
Proof.
  intros script useBackup now st msg Hout.
  destruct (gives_up_at_limit_or_listed script 0 useBackup now st msg Hout)
    as [? | (n & endpoint & Hlast & Hge)]; [by left |].
  right. exists endpoint. rewrite Hlast. do 2 f_equal.
  pose proof (retry_bounded script 0 useBackup now st ltac:(lia)) as Hall.
  apply last_Some in Hlast as [l' Hl']. rewrite Hl' in Hall.
  apply Forall_app in Hall as [_ Hn]. apply Forall_inv in Hn.
  cbn [fst] in Hn. lia.
Qed.

(** Six server errors: the last request has [retry = 5]; the message is
    not on the list. *)
Lemma X4_gives_up_witness :
  no_retry "HTTP error! status: 500" = false
  ∧ ∃ endpoint,
      last (requests (trace (fetchCryptoData (repeat (http 500) 6) 0 false 0 initialState)))
      = Some (MAX_RETRIES, endpoint).
Proof.
  split; [reflexivity |].
  destruct (X4_gives_up_only_at_limit_or_on_listed_message
              (repeat (http 500) 6) false 0 initialState
              "HTTP error! status: 500" eq_refl) as [H | H].
  - discriminate H.
  - exact H.
Defined.

(** ** How many requests a cycle makes *)

Lemma count_on_cons (endpoint : bool) (q : nat * bool) (reqs : list (nat * bool)) :
  count_on endpoint (q :: reqs) =
    ((if Bool.eqb (snd q) endpoint then 1 else 0) + count_on endpoint reqs)%nat.
Proof. unfold count_on. cbn [List.filter]. by destruct (Bool.eqb _ _). Qed.

Lemma count_on_total (reqs : list (nat * bool)) :
  length reqs = (count_on false reqs + count_on true reqs)%nat.
Proof.
  induction reqs as [|[n b] reqs IH]; [done |].
  rewrite !count_on_cons. cbn [length snd]. destruct b; cbn [Bool.eqb]; lia.
Qed.

Lemma request_counts (script : list Attempt) :
  ∀ (retry : nat) (useBackup : bool) (now : Z) (st : State),
    (retry ≤ MAX_RETRIES)%nat →
    let reqs := requests (trace (fetchCryptoData script retry useBackup now st)) in
    (count_on useBackup reqs + retry ≤ MAX_RETRIES + 1)%nat
    ∧ (if useBackup then count_on false reqs = 0%nat
       else (count_on true reqs ≤ MAX_RETRIES + 1)%nat).
Proof.
  induction script as [|a rest IH]; intros retry useBackup now st Hle reqs; subst reqs.
  - rewrite requests_nil, !count_on_cons. cbn [snd].
    destruct useBackup; cbn [Bool.eqb count_on List.filter length];
      unfold MAX_RETRIES in *; lia.
  - rewrite requests_cons. cbn zeta. rewrite !count_on_cons. cbn [snd].
    destruct (s_next _) as [retry' useBackup'|s] eqn:Hnext.
    + match goal with |- context [fetchCryptoData rest ?r ?b ?t ?s] =>
        specialize (IH r b t s) end.
      apply attempt_next in Hnext as [(-> & -> & Hlt) | (-> & -> & ->)].
      * destruct (IH ltac:(lia)) as [IH1 IH2].
        destruct useBackup; cbn [Bool.eqb] in *; unfold MAX_RETRIES in *; lia.
      * destruct (IH ltac:(lia)) as [IH1 IH2]. cbn [Bool.eqb] in *.
        unfold MAX_RETRIES in *; lia.
    + destruct useBackup; cbn [Bool.eqb count_on List.filter length];
        unfold MAX_RETRIES in *; lia.
Qed.

(** X5. Whatever the network does, a cycle makes at most six requests to
    primary, at most six to backup, and so at most twelve in all; a cycle
    begun on backup makes none to primary. *)
Theorem X5_at_most_six_requests_per_endpoint :
  ∀ (script : list Attempt) (useBackup : bool) (now : Z) (st : State),
    let reqs := requests (trace (fetchCryptoData script 0 useBackup now st)) in
    (count_on false reqs ≤ 6)%nat ∧ (count_on true reqs ≤ 6)%nat
    ∧ (length reqs ≤ 12)%nat
    ∧ (useBackup = true → count_on false reqs = 0%nat).
Proof.
  intros script useBackup now st reqs.
  destruct (request_counts script 0 useBackup now st ltac:(lia)) as [H1 H2].
  fold reqs in H1, H2. rewrite (count_on_total reqs).
  unfold MAX_RETRIES in *. destruct useBackup; repeat split; try lia; done.
Qed.

Lemma X5_at_most_six_witness :
  let reqs := requests (trace (fetchCryptoData (repeat (http 500) 20) 0 true 0 initialState)) in
  (length reqs ≤ 12)%nat ∧ count_on false reqs = 0%nat.
Proof.
  intros reqs.
  destruct (X5_at_most_six_requests_per_endpoint (repeat (http 500) 20) true 0 initialState)
    as (_ & _ & Hlen & Hnone).
  split; [exact Hlen | exact (Hnone eq_refl)].
Defined.

(** ** How long a cycle can take *)

Lemma delay_nonneg (retry : nat) : 0 ≤ delay retry.
Proof.
  unfold delay, INITIAL_RETRY_DELAY. destruct (0 <? retry)%nat eqn:H; [| lia].
  apply Nat.ltb_lt in H. apply Z.mul_nonneg_nonneg; [lia |].
  apply Z.pow_nonneg. lia.
Qed.

Lemma budget_from_nonneg (B pause : Z) (n retry : nat) :
  0 ≤ B → 0 ≤ pause → 0 ≤ budget_from B pause n retry.
Proof.
  intros HB Hp. revert retry. induction n as [|n IH]; intros retry; cbn [budget_from];
    pose proof (delay_nonneg retry); [lia |]. specialize (IH (S retry)). lia.
Qed.

Lemma endpoint_budget_step (B : Z) (retry : nat) :
  (retry < MAX_RETRIES)%nat →
  endpoint_budget B retry =
    delay retry + (20000 + B) + 5000 + endpoint_budget B (retry + 1).
Proof.
  intros Hlt. unfold endpoint_budget.
  replace (MAX_RETRIES - retry)%nat with (S (MAX_RETRIES - (retry + 1))) by lia.
  cbn [budget_from]. replace (S retry) with (retry + 1)%nat by lia. lia.
Qed.

Lemma endpoint_budget_least (B : Z) (retry : nat) :
  0 ≤ B → delay retry + (20000 + B) ≤ endpoint_budget B retry.
Proof.
  intros HB. unfold endpoint_budget.
  destruct (MAX_RETRIES - retry)%nat as [|n]; cbn [budget_from]; [lia |].
  pose proof (budget_from_nonneg (20000 + B) 5000 n (S retry)). lia.
Qed.

(** One invocation takes at most the 20 s of the abort timer and the body
    read, and five seconds more when it goes round again. *)
Lemma attempt_clock (B : Z) (retry : nat) (useBackup : bool) (a : Attempt)
    (now : Z) (st : State) :
  body_latency a ≤ B → 0 ≤ B →
  let step := attempt retry useBackup a now st in
  match s_next step with
  | Again retry' _ =>
      s_clock step ≤ now + (20000 + B) + (if (retry' =? 0)%nat then 0 else 5000)
  | Stop _ => s_clock step ≤ now + (20000 + B)
  end.
Proof.
  intros HB H0. branches;
    repeat match goal with
           | H : (_ <? _)%Z = true |- _ => apply Z.ltb_lt in H
           | H : (_ <? _)%Z = false |- _ => apply Z.ltb_ge in H
           end;
    try match goal with
        | H : (_ =? 0)%nat = true |- _ => apply Nat.eqb_eq in H
        end;
    lia.
Qed.

Lemma cycle_clock (B : Z) (script : list Attempt) :
  0 ≤ B → Forall (λ a, body_latency a ≤ B) script →
  ∀ (retry : nat) (useBackup : bool) (now : Z) (st : State),
    (retry ≤ MAX_RETRIES)%nat →
    clock (fetchCryptoData script retry useBackup now st)
    ≤ now + cycle_budget B retry useBackup.
Proof.
  intros H0. induction 1 as [|a rest Ha _ IH]; intros retry useBackup now st Hle;
    pose proof (backoff_clock retry now st) as Hb;
    pose proof (endpoint_budget_least B retry H0) as Hleast;
    pose proof (endpoint_budget_least B 0 H0) as Hleast0;
    pose proof (delay_nonneg 0) as Hd0.
  - cbn [fetchCryptoData]. destruct (backoff retry now st) as [[waited t] s].
    cbn [fst snd clock] in *. unfold cycle_budget. destruct useBackup; lia.
  - pose proof (attempt_clock B retry useBackup a (snd (fst (backoff retry now st)))
                  (snd (backoff retry now st)) Ha H0) as Hstep.
    cbn zeta in Hstep.
    destruct (s_next _) as [retry' useBackup'|s] eqn:Hnext.
    + rewrite (fetchCryptoData_again _ rest _ _ _ _ _ _ Hnext). cbn zeta. cbn [clock].
      match goal with |- context [fetchCryptoData rest ?r ?b ?t ?s] =>
        specialize (IH r b t s) end.
      apply attempt_next in Hnext as [(-> & -> & Hlt) | (-> & -> & ->)].
      * specialize (IH ltac:(lia)).
        replace (retry + 1 =? 0)%nat with false in Hstep
          by (symmetry; apply Nat.eqb_neq; lia).
        unfold cycle_budget in *. rewrite (endpoint_budget_step B retry Hlt). lia.
      * specialize (IH ltac:(lia)). cbn [Nat.eqb] in Hstep.
        unfold cycle_budget in *. lia.
    + rewrite (fetchCryptoData_stop _ rest _ _ _ _ _ Hnext). cbn [clock].
      unfold cycle_budget. destruct useBackup; lia.
Qed.

Lemma endpoint_budget_0 (B : Z) : endpoint_budget B 0 = 207000 + 6 * B.
Proof.
  unfold endpoint_budget, MAX_RETRIES. cbn [Nat.sub budget_from].
  change (delay 0) with 0. change (delay 1) with 2000. change (delay 2) with 4000.
  change (delay 3) with 8000. change (delay 4) with 16000.
  change (delay 5) with 32000. lia.
Qed.

(** X6. If no body takes longer than [B] ms to read, a cycle begun on
    primary is over, or at least past its last wait, within
    [414000 + 12 * B] ms of its start: per endpoint six requests cut off at
    20 s, 62 s of backoff and five 5 s rate-limit pauses.  A cycle begun on
    backup needs at most half of that. *)
Theorem X6_cycle_duration_is_bounded :
  ∀ (B : Z) (script : list Attempt) (useBackup : bool) (now : Z) (st : State),
    0 ≤ B → Forall (λ a, body_latency a ≤ B) script →
    clock (fetchCryptoData script 0 useBackup now st)
    ≤ now + (if useBackup then 207000 + 6 * B else 414000 + 12 * B).
Proof.
  intros B script useBackup now st H0 Hall.
  pose proof (cycle_clock B script H0 Hall 0 useBackup now st ltac:(lia)) as H.
  unfold cycle_budget in H. rewrite endpoint_budget_0 in H.
  destruct useBackup; lia.
Qed.

(** The bound is all but reached when every request is answered with a
    429 just before the cut-off, except for a 403 at the sixth. *)
Lemma X6_cycle_duration_witness :
  let slow (code : nat) := {| reply := reply (http code); latency := 19999; body_latency := 0 |} in
  let script := repeat (slow 429%nat) 5 ++ [slow 403%nat] ++ repeat (slow 429%nat) 6 in
  clock (fetchCryptoData script 0 false 0 initialState) = 413988
  ∧ clock (fetchCryptoData script 0 false 0 initialState) ≤ 0 + (414000 + 12 * 0).
Proof.
  intros slow script. split; [by vm_compute |].
  apply (X6_cycle_duration_is_bounded 0 script false 0 initialState); [lia |].
  repeat constructor; cbn; lia.
Defined.

(** ** Where the requests go *)

Lemma urls_app (tr1 tr2 : list Event) : urls (tr1 ++ tr2) = urls tr1 ++ urls tr2.
Proof.
  induction tr1 as [|[ms|url r b] tr1 IH]; cbn; [done | done | by rewrite IH].
Qed.

Lemma attempt_urls (retry : nat) (useBackup : bool) (a : Attempt)
    (now : Z) (st : State) :
  urls (s_events (attempt retry useBackup a now st)) = [].
Proof. by branches. Qed.

Lemma backoff_urls (retry : nat) (now : Z) (st : State) :
  urls (fst (fst (backoff retry now st))) = [].
Proof. rewrite backoff_events. by destruct (0 <? retry)%nat. Qed.

(** X7. Failing over to backup does not change where the requests go:
    whichever endpoint a cycle is on, every request it makes is for one and
    the same URL, the markets listing under [API_BASE_URL], because
    [BACKUP_API_URL] is that same address. *)
Theorem X7_every_request_goes_to_the_same_url :
  ∀ (script : list Attempt) (retry : nat) (useBackup : bool) (now : Z) (st : State),
    Forall (λ url, url = API_BASE_URL +:+ "/coins/markets?" +:+
      "vs_currency=usd&order=market_cap_desc&per_page=100&page=1&sparkline=false&locale=en&precision=2")
      (urls (trace (fetchCryptoData script retry useBackup now st))).
Proof.
  induction script as [|a rest IH]; intros retry useBackup now st.
  - pose proof (backoff_urls retry now st) as Hb. cbn [fetchCryptoData].
    destruct (backoff retry now st) as [[waited t] s]. cbn [fst snd trace] in *.
    rewrite urls_app, Hb. cbn [app urls]. constructor; [| constructor].
    by destruct useBackup.
  - pose proof (backoff_urls retry now st) as Hb.
    destruct (s_next (attempt retry useBackup a (snd (fst (backoff retry now st)))
                        (snd (backoff retry now st))))
      as [retry' useBackup'|s] eqn:Hnext.
    + rewrite (fetchCryptoData_again _ rest _ _ _ _ _ _ Hnext). cbn zeta. cbn [trace].
      rewrite !urls_app, Hb. cbn [app urls]. rewrite attempt_urls. cbn [app].
      constructor; [by destruct useBackup | apply IH].
    + rewrite (fetchCryptoData_stop _ rest _ _ _ _ _ Hnext). cbn [trace].
      rewrite !urls_app, Hb. cbn [app urls]. rewrite attempt_urls.
      constructor; [by destruct useBackup | constructor].
Qed.

(** ** What a cycle reads *)

(** X8. The routine writes the component state but never reads it: the
    requests a cycle makes, the waits between them, the time it takes and
    the way it ends are the same whatever the state it starts from (what is
    on display, which error is shown, what [retryCount] says). *)
Theorem X8_course_of_a_cycle_ignores_the_state :
  ∀ (script : list Attempt) (retry : nat) (useBackup : bool) (now : Z)
    (st st' : State),
    trace (fetchCryptoData script retry useBackup now st)
      = trace (fetchCryptoData script retry useBackup now st')
    ∧ clock (fetchCryptoData script retry useBackup now st)
      = clock (fetchCryptoData script retry useBackup now st')
    ∧ outcome (fetchCryptoData script retry useBackup now st)
      = outcome (fetchCryptoData script retry useBackup now st').
Proof. intros. apply cycle_control. Qed.

(** ** The endpoint flag *)

Lemma attempt_flag (retry : nat) (useBackup : bool) (a : Attempt)
    (now : Z) (st : State) :
  let step := attempt retry useBackup a now st in
  match s_next step with
  | Again _ useBackup' =>
      isUsingBackupAPI (s_state step) = isUsingBackupAPI st
      ∨ (useBackup' = true ∧ isUsingBackupAPI (s_state step) = true)
  | Stop (Succeeded _ _) => isUsingBackupAPI (s_state step) = useBackup
  | Stop (Failed _) => isUsingBackupAPI (s_state step) = isUsingBackupAPI st
  end.
Proof. branches; auto. Qed.

Lemma ended_on_backup (script : list Attempt) (retry : nat) (now : Z) (st : State) :
  ended_on (fetchCryptoData script retry true now st) = Some true.
Proof.
  unfold ended_on.
  pose proof (on_backup_stays script retry now st) as Hall.
  pose proof (requests_nonempty script retry true now st) as Hne.
  destruct (last _) as [[n b]|] eqn:Hlast; [| by apply last_None in Hlast].
  apply last_Some in Hlast as [l' Hl']. rewrite Hl' in Hall.
  apply Forall_app in Hall as [_ Hb]. apply Forall_inv in Hb. cbn in *. by subst.
Qed.

Lemma flag_follows_endpoint (script : list Attempt) :
  ∀ (retry : nat) (useBackup : bool) (now : Z) (st : State),
    let r := fetchCryptoData script retry useBackup now st in
    isUsingBackupAPI (state r) = isUsingBackupAPI st
    ∨ ended_on r = Some (isUsingBackupAPI (state r)).
Proof.
  induction script as [|a rest IH]; intros retry useBackup now st r; subst r;
    pose proof (backoff_keeps_flags retry now st) as (Hb & _ & _).
  - left. cbn [fetchCryptoData]. by destruct (backoff retry now st) as [[? ?] ?].
  - pose proof (attempt_flag retry useBackup a (snd (fst (backoff retry now st)))
                  (snd (backoff retry now st))) as Hstep.
    cbn zeta in Hstep. unfold ended_on.
    destruct (s_next _) as [retry' useBackup'|s] eqn:Hnext.
    + rewrite (last_request_again _ rest _ _ _ _ _ _ Hnext).
      rewrite (fetchCryptoData_again _ rest _ _ _ _ _ _ Hnext). cbn zeta. cbn [state].
      match goal with |- context [fetchCryptoData rest ?r ?b ?t ?s] =>
        specialize (IH r b t s); cbn zeta in IH; unfold ended_on in IH;
        pose proof (ended_on_backup rest r t s) as Hbackup;
        unfold ended_on in Hbackup end.
      destruct IH as [IH | IH]; [| by right].
      destruct Hstep as [Hsame | [-> Htrue]].
      * left. by rewrite IH, Hsame, Hb.
      * right. by rewrite Hbackup, IH, Htrue.
    + rewrite (last_request_stop _ rest _ _ _ _ _ Hnext).
      rewrite (fetchCryptoData_stop _ rest _ _ _ _ _ Hnext). cbn [state].
      destruct s as [data endpoint|msg].
      * right. cbn. by rewrite Hstep.
      * left. by rewrite Hstep, Hb.
Qed.

(** X9. A cycle changes [isUsingBackupAPI] only to the endpoint it ends
    on: if the flag differs after the cycle from what it was before, the
    cycle's last request went to the endpoint the flag now names.  The
    converse fails: after a timeout on primary the cycle runs on backup
    without raising the flag, so a cycle can end, failed, on backup with the
    flag still down. *)
Theorem X9_endpoint_flag_changes_only_to_the_endpoint_in_use :
  ∀ (script : list Attempt) (retry : nat) (useBackup : bool) (now : Z) (st : State),
    let r := fetchCryptoData script retry useBackup now st in
    isUsingBackupAPI (state r) ≠ isUsingBackupAPI st →
    ended_on r = Some (isUsingBackupAPI (state r)).
Proof.
  intros script retry useBackup now st r Hne.
  by destruct (flag_follows_endpoint script retry useBackup now st) as [? | ?].
Qed.

Lemma X9_endpoint_flag_witness :
  let r := fetchCryptoData [http 403; http 403] 0 false 0 initialState in
  ended_on r = Some true ∧ isUsingBackupAPI (state r) = true.
Proof.
  intros r. split; [| by vm_compute].
  apply (X9_endpoint_flag_changes_only_to_the_endpoint_in_use
           [http 403; http 403] 0 false 0 initialState).
  by vm_compute.
Defined.

(** After a timeout on primary and a refusal on backup the cycle has ended
    on backup with the flag down. *)
Example flag_down_on_backup :
  let late := {| reply := reply (http 200); latency := 20000; body_latency := 0 |} in
  let r := fetchCryptoData [late; http 403] 0 false 0 initialState in
  ended_on r = Some true ∧ isUsingBackupAPI (state r) = false
  ∧ outcome r = Settled (Failed "Access denied. Please check your API permissions.").
Proof. by vm_compute. Qed.

(** ** Refining a search *)

Lemma includes_within (s x t y : string) :
  includes s (x +:+ t +:+ y) = true → includes s t = true.
Proof.
  rewrite !includes_spec. intros (pre & post & ->).
  exists (pre +:+ x), (y +:+ post). by rewrite !string_app_assoc.
Qed.

Lemma matches_within (x t y : string) (crypto : Cryptocurrency) :
  is_ascii x = true → is_ascii t = true → is_ascii y = true →
  matches (x +:+ t +:+ y) crypto = true → matches t crypto = true.
Proof.
  intros Hx Ht Hy. unfold matches.
  rewrite !orb_true_iff, toLowerCase_ascii_app by done.
  intros [H | H]; [left | right]; by apply includes_within in H.
Qed.

Lemma matches_same_ascii (t' t : string) (crypto : Cryptocurrency) :
  is_ascii t = true → string_eq_ci t' t = true →
  matches t' crypto = matches t crypto.
Proof.
  intros Ht Hsame. unfold matches.
  rewrite (toLowerCase_ascii t') by (by eapply string_eq_ci_ascii).
  rewrite (toLowerCase_ascii t) by done.
  apply ascii_fold_eq in Hsame. by rewrite Hsame.
Qed.

Lemma filter_narrower {A : Type} (f g : A → bool) (l : list A) :
  (∀ x, f x = true → g x = true) →
  List.filter f l `sublist_of` List.filter g l
  ∧ List.filter f (List.filter g l) = List.filter f l.
Proof.
  intros Hfg. induction l as [|x l [IH1 IH2]]; cbn; [split; [constructor | done] |].
  destruct (f x) eqn:Hf.
  - rewrite (Hfg x Hf). cbn. rewrite Hf. split; [by constructor | by rewrite IH2].
  - destruct (g x); cbn; rewrite ?Hf; split; try done. by constructor.
Qed.

(** Outside ASCII a longer term can bring a row back: "ΑΣ" does not find
    "ΑΣΑ", "ΑΣΑ" does. *)
Example longer_term_finds_more :
  filteredCryptos [alpha_sigma_alpha] "ΑΣ" = []
  ∧ filteredCryptos [alpha_sigma_alpha] ("ΑΣ" +:+ "Α") = [alpha_sigma_alpha].
Proof. by vm_compute. Qed.

(** X10. Lengthening an ASCII search term, at either end and by ASCII
    text, never brings a row back, whatever the names and symbols are: the
    rows for the longer term are a subsequence of the rows for the shorter
    one, and they are what filtering those rows again by the longer term
    would give.  The case of the letters A to Z in the term is
    immaterial. *)
Theorem X10_longer_search_term_narrows :
  ∀ (cryptocurrencies : list Cryptocurrency) (before term after : string),
    is_ascii before = true → is_ascii term = true → is_ascii after = true →
    let longer := before +:+ term +:+ after in
    filteredCryptos cryptocurrencies longer
      `sublist_of` filteredCryptos cryptocurrencies term
    ∧ filteredCryptos (filteredCryptos cryptocurrencies term) longer
      = filteredCryptos cryptocurrencies longer
    ∧ ∀ term', string_eq_ci term' term = true →
        filteredCryptos cryptocurrencies term' = filteredCryptos cryptocurrencies term.
Proof.
  intros l x t y Hx Ht Hy longer. unfold filteredCryptos.
  destruct (filter_narrower (matches longer) (matches t) l) as [H1 H2];
    [intros c; by apply matches_within |].
  split; [exact H1 |]. split; [exact H2 |].
  intros t' Ht'. apply filter_ext. intros c. by apply matches_same_ascii.
Qed.

Lemma X10_longer_search_term_witness :
  filteredCryptos [bitcoin; ethereum] "BTC" = filteredCryptos [bitcoin; ethereum] "btc"
  ∧ filteredCryptos [bitcoin; ethereum] "ether"
    `sublist_of` filteredCryptos [bitcoin; ethereum] "the".
Proof.
  destruct (X10_longer_search_term_narrows [bitcoin; ethereum] "" "btc" ""
              eq_refl eq_refl eq_refl) as (_ & _ & Hcase).
  destruct (X10_longer_search_term_narrows [bitcoin; ethereum] "e" "the" "r"
              eq_refl eq_refl eq_refl) as (Hsub & _ & _).
  split; [exact (Hcase "BTC" eq_refl) | exact Hsub].
Defined.

(** ** The page after a cycle *)

Lemma attempt_loading (retry : nat) (useBackup : bool) (a : Attempt)
    (now : Z) (st : State) :
  let step := attempt retry useBackup a now st in
  match s_next step with
  | Stop _ => loading (s_state step) = false
  | Again _ _ => True
  end.
Proof. by branches. Qed.

Lemma settled_cycle_stops_loading (script : list Attempt) :
  ∀ (retry : nat) (useBackup : bool) (now : Z) (st : State) (s : Settlement),
    outcome (fetchCryptoData script retry useBackup now st) = Settled s →
    loading (state (fetchCryptoData script retry useBackup now st)) = false.
Proof.
  induction script as [|a rest IH]; intros retry useBackup now st s.
  - cbn [fetchCryptoData]. by destruct (backoff retry now st) as [[? ?] ?].
  - pose proof (attempt_loading retry useBackup a (snd (fst (backoff retry now st)))
                  (snd (backoff retry now st))) as Hstep.
    cbn zeta in Hstep.
    destruct (s_next _) as [retry' useBackup'|s'] eqn:Hnext.
    + rewrite (fetchCryptoData_again _ rest _ _ _ _ _ _ Hnext). cbn zeta.
      cbn [outcome state]. apply IH.
    + by rewrite (fetchCryptoData_stop _ rest _ _ _ _ _ Hnext).
Qed.

(** X11. After a cycle that succeeded the page shows, whatever it showed
    before: the time of settlement with the endpoint that served, no alert,
    and the table of the received entries that match the search term.  It
    never shows the spinner nor "No cryptocurrencies found", even when no
    entry matches the term: the table is then empty. *)
Theorem X11_page_after_a_successful_cycle :
  ∀ (script : list Attempt) (retry : nat) (useBackup : bool) (now : Z) (st : State)
    (data : list Cryptocurrency) (endpoint : bool)
    (searchTerm : string) (watchlist : gset string),
    let r := fetchCryptoData script retry useBackup now st in
    outcome r = Settled (Succeeded data endpoint) →
    render (state r) searchTerm watchlist =
      {| last_updated := Some (clock r, endpoint);
         alert := None;
         body := Table (map (row watchlist) (filteredCryptos data searchTerm)) |}.
Proof.
  intros script retry useBackup now st data endpoint term wl r Hout.
  pose proof (cycle_state script retry useBackup now st) as H. cbn zeta in H.
  fold r in H. rewrite Hout in H. destruct H as (-> & Hne & _).
  unfold render. cbn [lastUpdateTime isUsingBackupAPI error loading cryptocurrencies].
  destruct data; [done | done].
Qed.

Lemma X11_page_after_success_witness :
  let r := fetchCryptoData [http_ok [bitcoin; ethereum] 50] 0 false 0 initialState in
  render (state r) "dogecoin" {[ "bitcoin" ]} =
    {| last_updated := Some (150, false); alert := None; body := Table [] |}.
Proof.
  intros r.
  exact (X11_page_after_a_successful_cycle [http_ok [bitcoin; ethereum] 50] 0 false 0
           initialState [bitcoin; ethereum] false "dogecoin" {[ "bitcoin" ]} eq_refl).
Defined.

(** X12. After a cycle that failed the page shows no spinner; the alert
    carries the cycle's message (none if the message is empty); the body is
    the table of the entries held before the cycle, filtered by the search
    term, or "No cryptocurrencies found" if none were held; and the "Last
    updated" time is the one shown before, though its backup note follows
    the flag as the cycle left it. *)
Theorem X12_page_after_a_failed_cycle :
  ∀ (script : list Attempt) (retry : nat) (useBackup : bool) (now : Z) (st : State)
    (msg : string) (searchTerm : string) (watchlist : gset string),
    let r := fetchCryptoData script retry useBackup now st in
    outcome r = Settled (Failed msg) →
    render (state r) searchTerm watchlist =
      {| last_updated :=
           match lastUpdateTime st with
           | Some t => Some (t, isUsingBackupAPI (state r))
           | None => None
           end;
         alert := match msg with EmptyString => None | _ => Some msg end;
         body :=
           match cryptocurrencies st with
           | [] => NothingFound
           | _ =>
               Table (map (row watchlist)
                        (filteredCryptos (cryptocurrencies st) searchTerm))
           end |}.
Proof.
  intros script retry useBackup now st msg term wl r Hout.
  pose proof (cycle_state script retry useBackup now st) as H. cbn zeta in H.
  fold r in H. rewrite Hout in H. destruct H as (Hdata & Htime & Herr).
  pose proof (settled_cycle_stops_loading script retry useBackup now st _ Hout) as Hload.
  fold r in Hload.
  unfold render. rewrite Hdata, Htime, Herr, Hload.
  f_equal; [by destruct msg | by destruct (cryptocurrencies st)].
Qed.

Lemma X12_page_after_failure_witness :
  let shown := state (fetchCryptoData [http_ok [bitcoin] 50] 0 false 0 initialState) in
  let r := fetchCryptoData [http 403; http 403] 0 false 60150 shown in
  render (state r) "" ∅ =
    {| last_updated := Some (150, true);
       alert := Some "Access denied. Please check your API permissions.";
       body := Table [row ∅ bitcoin] |}.
Proof.
  intros shown r.
  exact (X12_page_after_a_failed_cycle [http 403; http 403] 0 false 60150 shown
           "Access denied. Please check your API permissions." "" ∅ eq_refl).
Defined.

(** ** Clicking a star *)

Lemma row_after_toggle (i : string) (watchlist : gset string) (crypto : Cryptocurrency) :
  row (toggle_set i watchlist) crypto =
    if decide (id crypto = i)
    then {| row_of := crypto;
            star_active := negb (star_active (row watchlist crypto));
            rising := rising (row watchlist crypto) |}
    else row watchlist crypto.
Proof.
  unfold row. cbn [star_active rising]. destruct (decide (id crypto = i)) as [->|Hne].
  - f_equal. pose proof (toggle_set_self i watchlist) as H.
    destruct (decide (i ∈ watchlist)) as [Hin|Hout].
    + rewrite (bool_decide_eq_true_2 _ Hin). apply bool_decide_eq_false_2. tauto.
    + rewrite (bool_decide_eq_false_2 _ Hout). apply bool_decide_eq_true_2. tauto.
  - f_equal. apply bool_decide_ext. by apply toggle_set_other.
Qed.

(** X13. Clicking the star of the entry [i] changes nothing on the page
    but the stars of the rows whose entry has that identifier, which are
    flipped: the same rows are listed in the same order, and the "Last
    updated" line, the alert and the spinner are as before. *)
Theorem X13_star_click_flips_only_that_star :
  ∀ (st : State) (searchTerm : string) (ws : WatchState) (i : string),
    let before := render st searchTerm (watchlist ws) in
    let after := render st searchTerm (watchlist (toggleWatchlist i ws)) in
    last_updated after = last_updated before
    ∧ alert after = alert before
    ∧ body after =
        match body before with
        | Table rows =>
            Table (map (λ r, if decide (id (row_of r) = i)
                             then {| row_of := row_of r;
                                     star_active := negb (star_active r);
                                     rising := rising r |}
                             else r) rows)
        | other => other
        end.
Proof.
  intros st term ws i. cbn zeta. unfold render, toggleWatchlist.
  cbn [last_updated alert body watchlist]. split; [done |]. split; [done |].
  destruct (loading st); [done |].
  destruct (0 <? length (cryptocurrencies st))%nat; [| done].
  f_equal. rewrite map_map. apply map_ext. intros c.
  rewrite row_after_toggle. cbn [row_of row]. by destruct (decide _).
Qed.

(** ** Tearing the effect down *)

(** X14. The cleanup of a run of the effect stops that run's timer only if
    the timer had been set when the cleanup ran: from then on no tick
    starts a cycle.  If the cleanup runs while the awaited first cycle is
    still under way (as it does when that cycle itself changes [error] or
    [isUsingBackupAPI] and so makes React run the effect again), the timer
    that is set when the cycle has settled is never cleared: every tick,
    without end, starts a cycle, on the endpoint that run closed over. *)
Theorem X14_cleanup_misses_a_timer_set_later :
  ∀ (m : Mounted) (cleaned : Z) (s : Settlement),
    cleanup_at m = Some cleaned →
    outcome (first_cycle (run_of m)) = Settled s →
    no_error (deps (run_of m)) = true →
    let settled := clock (first_cycle (run_of m)) in
    (settled < cleaned →
     ∀ k, tick_fires m k = true ↔ fires_at settled k < cleaned)
    ∧ (cleaned < settled →
       ∀ k, tick_fires m (S k) = true
            ∧ ∃ r, cycle (run_of m) (S k) = Some r
                   ∧ started_on r = Some (dep_isUsingBackupAPI (deps (run_of m)))).
Proof.
  intros m cleaned s Hclean Hout Herr settled.
  assert (Harmed : armed_at (run_of m) = Some settled)
    by (unfold armed_at; by rewrite Hout, Herr).
  unfold tick_fires, timer_cleared_at. rewrite Harmed, Hclean. split.
  - intros Hlt k.
    replace (settled <=? cleaned) with true by (symmetry; apply Z.leb_le; lia).
    apply Z.ltb_lt.
  - intros Hlt k.
    replace (settled <=? cleaned) with false by (symmetry; apply Z.leb_gt; lia).
    split; [done |]. unfold cycle. cbn [cycle_start]. rewrite Harmed.
    eexists. split; [reflexivity |]. apply started_on_call.
Qed.

(** The run of the effect whose first cycle is refused on primary at 100 ms
    and served by backup at 250 ms, torn down at 100 ms: its timer goes on
    starting cycles on primary. *)
Lemma X14_cleanup_witness :
  let m := {| run_of := failover; cleanup_at := Some 100 |} in
  tick_fires m 1 = true ∧ tick_fires m 1000 = true
  ∧ ∃ r, cycle failover 1 = Some r ∧ started_on r = Some false.
Proof.
  intros m.
  destruct (X14_cleanup_misses_a_timer_set_later m 100 (Succeeded [bitcoin] true)
              eq_refl eq_refl eq_refl) as [_ Hleak].
  assert (Hlt : 100 < clock (first_cycle (run_of m))) by (by vm_compute).
  destruct (Hleak Hlt 0%nat) as [H1 Hr]. destruct (Hleak Hlt 999%nat) as [H2 _].
  split; [exact H1 |]. split; [exact H2 | exact Hr].
Defined.

(** ** The watchlist in storage *)

Lemma prun_app (st : PState) (a b : string) :
  prun st (a +:+ b) =
    match prun st a with
    | Some st' => prun st' b
    | None => None
    end.
Proof.
  revert st. induction a as [|c a IH]; intros st; [done |].
  rewrite append_cons. cbn [prun]. by destruct (pstep st c).
Qed.

(** Reading back what [quote_char] writes gives the character. *)
Lemma prun_quote_char (c : ascii) (items : list string) (acc : string) :
  prun (PStr items acc) (quote_char c) = Some (PStr items (snoc acc c)).
Proof. destruct c as [[] [] [] [] [] [] [] []]; reflexivity. Qed.

Lemma snoc_append (acc : string) (c : ascii) (s : string) :
  snoc acc c +:+ s = acc +:+ String c s.
Proof. unfold snoc. by rewrite string_app_assoc. Qed.

Lemma append_empty_r (s : string) : s +:+ "" = s.
Proof. induction s as [|c s IH]; [done |]. by rewrite append_cons, IH. Qed.

Lemma prun_quote_body (s : string) (items : list string) (acc : string) :
  prun (PStr items acc) (quote_body s) = Some (PStr items (acc +:+ s)).
Proof.
  revert acc. induction s as [|c s IH]; intros acc; cbn [quote_body].
  - by rewrite append_empty_r.
  - rewrite prun_app, prun_quote_char, IH. by rewrite snoc_append.
Qed.

Lemma prun_quoted (s : string) (items : list string) (tail : string) :
  prun (PComma items) (JSON_stringify_string s +:+ tail)
  = prun (PItem (items ++ [s])) tail.
Proof.
  unfold JSON_stringify_string. rewrite append_cons. cbn [prun].
  change (pstep (PComma items) dquote) with (Some (PStr items "")).
  rewrite string_app_assoc, prun_app, prun_quote_body.
  rewrite append_nil, append_cons, append_nil. cbn [prun].
  by change (pstep (PStr items s) dquote) with (Some (PItem (items ++ [s]))).
Qed.

Lemma prun_join (rest : list string) :
  ∀ (x : string) (items : list string) (tail : string),
    prun (PComma items) (join_comma (map JSON_stringify_string (x :: rest)) +:+ tail)
    = prun (PItem (items ++ x :: rest)) tail.
Proof.
  induction rest as [|y rest IH]; intros x items tail.
  - cbn [map join_comma]. apply prun_quoted.
  - change (join_comma (map JSON_stringify_string (x :: y :: rest)))
      with (JSON_stringify_string x +:+ "," +:+
            join_comma (map JSON_stringify_string (y :: rest))).
    rewrite !string_app_assoc, prun_quoted. rewrite append_cons, append_nil.
    cbn [prun].
    change (pstep (PItem (items ++ [x])) ",") with (Some (PComma (items ++ [x]))).
    cbv beta iota. rewrite IH. by rewrite <- app_assoc.
Qed.

(** What [JSON.stringify] writes for an array of strings, [JSON.parse]
    reads back as that array. *)
Lemma JSON_parse_stringify (items : list string) :
  JSON_parse (JSON_stringify items) = Some items.
Proof.
  unfold JSON_parse, JSON_stringify. destruct items as [|x rest]; [done |].
  rewrite append_cons, append_nil. cbn [prun].
  change (pstep PStart "[") with (Some POpen). cbv beta iota.
  assert (Hopen : ∀ t, prun POpen (JSON_stringify_string x +:+ t)
                       = prun (PComma []) (JSON_stringify_string x +:+ t))
    by (intros t; unfold JSON_stringify_string; by rewrite append_cons).
  destruct rest as [|y rest].
  - cbn [map join_comma]. rewrite Hopen, prun_quoted. reflexivity.
  - change (join_comma (map JSON_stringify_string (x :: y :: rest)))
      with (JSON_stringify_string x +:+ "," +:+
            join_comma (map JSON_stringify_string (y :: rest))).
    rewrite !string_app_assoc, Hopen, prun_quoted.
    rewrite append_cons, append_nil. cbn [prun].
    change (pstep (PItem ([] ++ [x])) ",") with (Some (PComma ([] ++ [x]))).
    cbv beta iota. rewrite prun_join. reflexivity.
Qed.

Section OrderedSet.
Implicit Types (x y : string) (s l : list string).

Lemma set_has_true x s : set_has x s = true ↔ x ∈ s.
Proof. unfold set_has. apply bool_decide_eq_true. Qed.

Lemma elem_of_set_add y x s : y ∈ set_add x s ↔ y = x ∨ y ∈ s.
Proof.
  unfold set_add. destruct (set_has x s) eqn:H.
  - apply set_has_true in H. split; [by right | by intros [-> | ?]].
  - rewrite elem_of_app, list_elem_of_singleton. tauto.
Qed.

Lemma NoDup_set_add x s : NoDup s → NoDup (set_add x s).
Proof.
  intros Hs. unfold set_add. destruct (set_has x s) eqn:H; [done |].
  apply NoDup_app. split; [done |]. split; [| apply NoDup_singleton].
  intros y Hy ->%list_elem_of_singleton.
  apply set_has_true in Hy. congruence.
Qed.

Lemma elem_of_set_delete y x s : y ∈ set_delete x s ↔ y ∈ s ∧ y ≠ x.
Proof.
  unfold set_delete. rewrite !list_elem_of_In, filter_In, negb_true_iff.
  by rewrite String.eqb_neq.
Qed.

Lemma NoDup_set_delete x s : NoDup s → NoDup (set_delete x s).
Proof.
  unfold set_delete. rewrite !NoDup_ListNoDup. apply List.NoDup_filter.
Qed.

Lemma fold_set_add l :
  ∀ s, NoDup s →
    NoDup (fold_left (λ s x, set_add x s) l s)
    ∧ ∀ y, y ∈ fold_left (λ s x, set_add x s) l s ↔ y ∈ s ∨ y ∈ l.
Proof.
  induction l as [|x l IH]; intros s Hs; cbn [fold_left].
  - split; [done |]. intros y. rewrite elem_of_nil. tauto.
  - destruct (IH (set_add x s) (NoDup_set_add x s Hs)) as [Hnd Hin].
    split; [done |]. intros y. rewrite Hin, elem_of_set_add, elem_of_cons. tauto.
Qed.

Lemma fold_set_add_fresh l :
  ∀ s, NoDup (s ++ l) → fold_left (λ s x, set_add x s) l s = s ++ l.
Proof.
  induction l as [|x l IH]; intros s Hnd; cbn [fold_left].
  - by rewrite app_nil_r.
  - assert (Hx : set_has x s = false).
    { apply not_true_is_false. rewrite set_has_true. intros Hin.
      apply NoDup_app in Hnd as (_ & Hdisj & _). apply (Hdisj x Hin). by left. }
    unfold set_add at 2. rewrite Hx. rewrite IH; rewrite <- app_assoc; done.
Qed.

Lemma new_Set_NoDup l : NoDup (new_Set l).
Proof. apply fold_set_add, NoDup_nil_2. Qed.

Lemma elem_of_new_Set y l : y ∈ new_Set l ↔ y ∈ l.
Proof.
  unfold new_Set. destruct (fold_set_add l [] (NoDup_nil_2)) as [_ H].
  rewrite H, elem_of_nil. tauto.
Qed.

Lemma new_Set_id s : NoDup s → new_Set s = s.
Proof. intros Hs. unfold new_Set. by rewrite fold_set_add_fresh. Qed.

End OrderedSet.

Lemma toggled_NoDup (i : string) (prev : list string) :
  NoDup (fst (toggleWatchlist_stored i prev)).
Proof.
  unfold toggleWatchlist_stored. cbn [fst]. pose proof (new_Set_NoDup prev).
  destruct (set_has i (new_Set prev)); [by apply NoDup_set_delete | by apply NoDup_set_add].
Qed.

(** X15. Kept with its order, the watchlist never lists an identifier
    twice, and as a set it is what the membership-only [toggle_set] gives:
    the toggled identifier is dropped if it was listed (wherever it was) and
    put last if it was not, and every other identifier keeps its place. *)
Theorem X15_ordered_toggle_agrees_with_the_set :
  ∀ (i : string) (prev : list string),
    let newSet := fst (toggleWatchlist_stored i prev) in
    NoDup newSet
    ∧ (list_to_set newSet : gset string) = toggle_set i (list_to_set prev)
    ∧ (NoDup prev →
       newSet = if bool_decide (i ∈ prev)
                then List.filter (λ y, negb (String.eqb y i)) prev
                else prev ++ [i]).
Proof.
  intros i prev newSet. split; [apply toggled_NoDup |]. split.
  - subst newSet. unfold toggleWatchlist_stored, toggle_set. cbn [fst].
    apply set_eq. intros y. rewrite elem_of_list_to_set.
    destruct (set_has i (new_Set prev)) eqn:Hhas.
    + rewrite set_has_true, elem_of_new_Set in Hhas.
      rewrite elem_of_set_delete, elem_of_new_Set.
      destruct (decide (i ∈ list_to_set prev)) as [?|Hout];
        [| exfalso; apply Hout; by apply elem_of_list_to_set].
      rewrite elem_of_difference, elem_of_list_to_set, elem_of_singleton. done.
    + assert (Hout : i ∉ prev).
      { intros Hin. rewrite <- (elem_of_new_Set i prev), <- set_has_true in Hin.
        congruence. }
      rewrite elem_of_set_add, elem_of_new_Set.
      destruct (decide (i ∈ list_to_set prev)) as [Hin|?];
        [exfalso; apply Hout; by apply elem_of_list_to_set in Hin |].
      rewrite elem_of_union, elem_of_list_to_set, elem_of_singleton. tauto.
  - intros Hnd. subst newSet. unfold toggleWatchlist_stored. cbn [fst].
    rewrite (new_Set_id prev Hnd). unfold set_has.
    destruct (bool_decide (i ∈ prev)) eqn:Hin; [done |].
    unfold set_add, set_has. by rewrite Hin.
Qed.

Lemma X15_ordered_toggle_witness :
  fst (toggleWatchlist_stored "b" ["a"; "b"; "c"]) = ["a"; "c"]
  ∧ fst (toggleWatchlist_stored "b" ["a"; "c"]) = ["a"; "c"; "b"].
Proof.
  destruct (X15_ordered_toggle_agrees_with_the_set "b" ["a"; "b"; "c"]) as (_ & _ & H1).
  destruct (X15_ordered_toggle_agrees_with_the_set "b" ["a"; "c"]) as (_ & _ & H2).
  split; [apply H1 | apply H2]; repeat constructor; set_solver.
Defined.

Lemma JSON_stringify_nonempty (items : list string) :
  ∃ text, JSON_stringify items = String "[" text.
Proof. unfold JSON_stringify. rewrite append_cons, append_nil. by eexists. Qed.

(** X16. What [toggleWatchlist] writes to storage, the initialiser of the
    next page load reads back as the very same list: same members, same
    order.  More generally a saved array of strings is loaded with its
    repetitions dropped; and without [window], with nothing saved, or with
    the empty string saved, the watchlist starts empty. *)
Theorem X16_saved_watchlist_is_read_back :
  ∀ (i : string) (prev : list string),
    let '(newSet, saved) := toggleWatchlist_stored i prev in
    initial_watchlist true (Some saved) = Some newSet
    ∧ (∀ items, initial_watchlist true (Some (JSON_stringify items))
                = Some (new_Set items))
    ∧ (∀ saved', initial_watchlist false saved' = Some [])
    ∧ initial_watchlist true None = Some []
    ∧ initial_watchlist true (Some "") = Some [].
Proof.
  intros i prev.
  assert (Hload : ∀ items, initial_watchlist true (Some (JSON_stringify items))
                           = Some (new_Set items)).
  { intros items. unfold initial_watchlist.
    destruct (JSON_stringify_nonempty items) as [text Htext].
    rewrite Htext, <- Htext. by rewrite JSON_parse_stringify. }
  pose proof (toggled_NoDup i prev) as Hnd.
  destruct (toggleWatchlist_stored i prev) as [newSet saved] eqn:Htoggle.
  assert (Hsaved : saved = JSON_stringify newSet).
  { unfold toggleWatchlist_stored in Htoggle. by injection Htoggle as <- <-. }
  cbn [fst] in Hnd. split; [by rewrite Hsaved, Hload, new_Set_id |].
  split; [exact Hload |]. by repeat split.
Qed.

Lemma X16_saved_watchlist_witness :
  initial_watchlist true (Some (snd (toggleWatchlist_stored "ethereum" ["bitcoin"])))
  = Some ["bitcoin"; "ethereum"]
  ∧ initial_watchlist true (Some (JSON_stringify ["a"; "b"; "a"])) = Some ["a"; "b"].
Proof.
  pose proof (X16_saved_watchlist_is_read_back "ethereum" ["bitcoin"]) as H.
  cbn in H. destruct H as (H1 & H2 & _). split; [exact H1 | exact (H2 ["a"; "b"; "a"])].
Defined.

(** ** The spinner and the attempt line *)

Lemma attempt_spinner (retry : nat) (useBackup : bool) (a : Attempt)
    (now : Z) (st : State) :
  (loading st = false → loading (s_state (attempt retry useBackup a now st)) = false)
  ∧ ((retryCount st ≤ MAX_RETRIES)%nat →
     (retryCount (s_state (attempt retry useBackup a now st)) ≤ MAX_RETRIES)%nat).
Proof.
  branches; split; intros; try done;
    repeat match goal with
           | H : (_ && _)%bool = true |- _ => apply andb_true_iff in H as [? ?]
           | H : (_ <? _)%nat = true |- _ => apply Nat.ltb_lt in H
           end; unfold MAX_RETRIES in *; lia.
Qed.

Lemma cycle_spinner (script : list Attempt) :
  ∀ (retry : nat) (useBackup : bool) (now : Z) (st : State),
    let r := fetchCryptoData script retry useBackup now st in
    (loading st = false → loading (state r) = false)
    ∧ ((retryCount st ≤ MAX_RETRIES)%nat → (retryCount (state r) ≤ MAX_RETRIES)%nat).
Proof.
  induction script as [|a rest IH]; intros retry useBackup now st r; subst r;
    pose proof (backoff_keeps_flags retry now st) as (_ & Hcount & Hload).
  - cbn [fetchCryptoData]. destruct (backoff retry now st) as [[? ?] ?].
    cbn [snd state] in *. by rewrite Hcount, Hload.
  - pose proof (attempt_spinner retry useBackup a (snd (fst (backoff retry now st)))
                  (snd (backoff retry now st))) as [Hs1 Hs2].
    rewrite Hload in Hs1. rewrite Hcount in Hs2.
    destruct (s_next (attempt retry useBackup a (snd (fst (backoff retry now st)))
                        (snd (backoff retry now st))))
      as [retry' useBackup'|s] eqn:Hnext.
    + rewrite (fetchCryptoData_again _ rest _ _ _ _ _ _ Hnext). cbn zeta. cbn [state].
      match goal with |- context [fetchCryptoData rest ?r ?b ?t ?s] =>
        destruct (IH r b t s) as [IH1 IH2] end.
      split; intros H; [apply IH1, Hs1, H | apply IH2, Hs2, H].
    + rewrite (fetchCryptoData_stop _ rest _ _ _ _ _ Hnext). cbn [state]. done.
Qed.

(** X17. The routine never turns [loading] back on: once the page has left
    its first spinner, no later cycle, at any point of its course and however
    it fares, brings the spinner back, so a refresh that is retrying shows
    no "Retrying... (Attempt n/5)" line, only the alert over the table. *)
Theorem X17_spinner_never_returns :
  ∀ (script : list Attempt) (retry : nat) (useBackup : bool) (now : Z) (st : State)
    (searchTerm : string) (watchlist : gset string),
    loading st = false →
    let r := fetchCryptoData script retry useBackup now st in
    loading (state r) = false
    ∧ ∀ line, body (render (state r) searchTerm watchlist) ≠ Spinner line.
Proof.
  intros script retry useBackup now st term wl Hload r.
  destruct (cycle_spinner script retry useBackup now st) as [H _].
  specialize (H Hload). fold r in H. split; [exact H |].
  intros line. unfold render. cbn [body]. rewrite H.
  by destruct (0 <? length (cryptocurrencies (state r)))%nat.
Qed.

Lemma X17_spinner_witness :
  let shown := state (fetchCryptoData [http_ok [bitcoin] 50] 0 false 0 initialState) in
  let r := fetchCryptoData [http 500; http 500] 0 false 60150 shown in
  loading (state r) = false
  ∧ outcome r = AwaitingResponse
  ∧ render (state r) "" ∅ =
      {| last_updated := Some (150, false);
         alert := Some "Retrying in 4 seconds... (Attempt 2/5)";
         body := Table [row ∅ bitcoin] |}.
Proof.
  intros shown r.
  destruct (X17_spinner_never_returns [http 500; http 500] 0 false 60150 shown "" ∅
              eq_refl) as [Hload _].
  split; [exact Hload |]. split; by vm_compute.
Defined.

(** X18. The attempt counter on display stays within the limit: a cycle
    that starts with [retryCount] at most [MAX_RETRIES] never leaves it
    above, so the line under the spinner never reads beyond
    "Attempt 5/5". *)
Theorem X18_attempt_line_never_exceeds_the_limit :
  ∀ (script : list Attempt) (retry : nat) (useBackup : bool) (now : Z) (st : State)
    (searchTerm : string) (watchlist : gset string),
    (retryCount st ≤ MAX_RETRIES)%nat →
    let r := fetchCryptoData script retry useBackup now st in
    (retryCount (state r) ≤ MAX_RETRIES)%nat
    ∧ ∀ n, body (render (state r) searchTerm watchlist) = Spinner (Some n) →
           (1 ≤ n ≤ MAX_RETRIES)%nat.
Proof.
  intros script retry useBackup now st term wl Hle r.
  destruct (cycle_spinner script retry useBackup now st) as [_ H].
  specialize (H Hle). fold r in H. split; [exact H |].
  intros n. unfold render. cbn [body].
  destruct (loading (state r)); [| by destruct (0 <? length _)%nat].
  destruct (0 <? retryCount (state r))%nat eqn:Hpos; [| done].
  intros [= <-]. apply Nat.ltb_lt in Hpos. lia.
Qed.

Lemma X18_attempt_line_witness :
  let r := fetchCryptoData (repeat (http 429) 3) 0 false 0 initialState in
  body (render (state r) "" ∅) = Spinner (Some 3%nat)
  ∧ (retryCount (state r) ≤ MAX_RETRIES)%nat.
Proof.
  intros r. split; [by vm_compute |].
  exact (proj1 (X18_attempt_line_never_exceeds_the_limit (repeat (http 429) 3) 0 false 0
                  initialState "" ∅ ltac:(cbn; lia))).
Defined.
